(** * NoteEase: the note repository of [routes/index.tsx]

    A shallow embedding of the application logic of
    [src/notes_frontend/src/routes/index.tsx]: the [Note] record, the
    persistence functions [loadNotes], [saveNotes], [loadUser], [saveUser],
    the id generator [uid], the computed [filteredNotes] and the handlers
    [createNote], [updateNote], [deleteNote].

    Conventions of the embedding.
    - A JavaScript string is a [string] whose characters are the code
      units 0 to 255 (Latin-1); the platform methods [trim], [toLowerCase],
      [includes], [split], [slice] are given on that alphabet as
      ECMAScript defines them there: white space is TAB, LF, VT, FF, CR,
      SPACE and NO-BREAK SPACE, and the letters with a lower case form are
      A to Z and U+00C0 to U+00DE without the multiplication sign.
    - A JavaScript number is an integer [Z]: the timestamps come from
      [Date.now()], which yields whole milliseconds.
    - [localStorage] is a finite map from keys to strings; a write always
      succeeds (no quota). Where the page runs without a [localStorage]
      (rendering on the server), a reference to it throws.
    - [JSON.parse] and [JSON.stringify] belong to the platform and are
      parameters of the persistence layer; [Module RefJSON] gives a reference
      codec for the compact JSON text that [JSON.stringify] emits, and
      [RefJSONFacts.parse_stringify] shows that it reads back what it
      prints.
    - A [try]/[catch] is a computation in the [completion] monad, so that
      "never raises" is a statement about the result. *)

From Stdlib Require Import ZArith Ascii String List Bool Lia Sorted Permutation.
From Stdlib Require Import DecimalString DecimalZ.
From stdpp Require Import gmap strings.

Local Open Scope string_scope.
Local Open Scope Z_scope.

(** ** Platform: strings *)

Module JsString.

(** ECMAScript WhiteSpace and LineTerminator code points below 256:
    TAB, LF, VT, FF, CR, SPACE and NO-BREAK SPACE (U+00A0). *)
Definition is_white_space (c : ascii) : bool :=
  let n := nat_of_ascii c in
  ((9 <=? n)%nat && (n <=? 13)%nat) || (n =? 32)%nat || (n =? 160)%nat.

Definition is_empty (s : string) : bool :=
  match s with
  | EmptyString => true
  | String _ _ => false
  end.

(** [String.prototype.trimStart] *)
Fixpoint trimStart (s : string) : string :=
  match s with
  | EmptyString => EmptyString
  | String c s' => if is_white_space c then trimStart s' else s
  end.

(** [String.prototype.trimEnd] *)
Fixpoint trimEnd (s : string) : string :=
  match s with
  | EmptyString => EmptyString
  | String c s' =>
      let r := trimEnd s' in
      if is_white_space c && is_empty r then EmptyString else String c r
  end.

(** [String.prototype.trim] *)
Definition trim (s : string) : string := trimEnd (trimStart s).

(** The lower case of a code unit below 256: A to Z, and U+00C0 to U+00DE
    except the multiplication sign U+00D7, move up by 32. *)
Definition lower_char (c : ascii) : ascii :=
  let n := nat_of_ascii c in
  if ((65 <=? n)%nat && (n <=? 90)%nat)
     || ((192 <=? n)%nat && (n <=? 222)%nat && negb (n =? 215)%nat)
  then ascii_of_nat (n + 32) else c.

(** [String.prototype.toLowerCase] *)
Fixpoint toLowerCase (s : string) : string :=
  match s with
  | EmptyString => EmptyString
  | String c s' => String (lower_char c) (toLowerCase s')
  end.

(** [s.startsWith(p)] *)
Fixpoint startsWith (p s : string) : bool :=
  match p, s with
  | EmptyString, _ => true
  | String a p', String b s' => if Ascii.eqb a b then startsWith p' s' else false
  | String _ _, EmptyString => false
  end.

(** [s.includes(p)]: [p] occurs in [s] at some position. *)
Fixpoint includes (s p : string) : bool :=
  if startsWith p s then true
  else match s with
       | EmptyString => false
       | String _ s' => includes s' p
       end.

(** [s.split(",")]: the pieces between the commas; never the empty list. *)
Fixpoint split_comma (s : string) : list string :=
  match s with
  | EmptyString => [EmptyString]
  | String c s' =>
      if Ascii.eqb c ","%char then EmptyString :: split_comma s'
      else match split_comma s' with
           | [] => [String c EmptyString]
           | piece :: rest => String c piece :: rest
           end
  end.

(** [s.slice(n)] for a non-negative [n]. *)
Fixpoint slice (n : nat) (s : string) : string :=
  match n, s with
  | O, _ => s
  | S _, EmptyString => EmptyString
  | S n', String _ s' => slice n' s'
  end.

(** [pieces.join(sep)] *)
Fixpoint join (sep : string) (pieces : list string) : string :=
  match pieces with
  | [] => EmptyString
  | [p] => p
  | p :: rest => p ++ sep ++ join sep rest
  end.

Definition digit36 (d : Z) : ascii :=
  if d <? 10 then ascii_of_nat (Z.to_nat (48 + d))
  else ascii_of_nat (Z.to_nat (87 + d)).

Fixpoint digits36 (fuel : nat) (n : Z) (acc : string) : string :=
  match fuel with
  | O => acc
  | S fuel' =>
      let acc' := String (digit36 (n mod 36)) acc in
      if n / 36 =? 0 then acc' else digits36 fuel' (n / 36) acc'
  end.

(** [n.toString(36)] for an integer [n]. *)
Definition toString36 (n : Z) : string :=
  if n <? 0 then String "-"%char (digits36 (S (Z.to_nat (Z.log2 (- n)))) (- n) EmptyString)
  else digits36 (S (Z.to_nat (Z.log2 n))) n EmptyString.

End JsString.

(** ** Data model *)

(** [type Note] *)
Record Note : Type := mkNote {
  id : string;
  title : string;
  content : string;
  tags : list string;
  createdAt : Z;
  updatedAt : Z;
}.

(** The create/edit form store: [form.title], [form.content], [form.tags]. *)
Record Form : Type := mkForm {
  form_title : string;
  form_content : string;
  form_tags : string;
}.

#[global] Instance Note_eq_dec : EqDecision Note.
Proof. solve_decision. Defined.

(** ** Platform: arrays *)

Module JsArray.
Section Sort.
Context {A : Type}.
Variable cmp : A -> A -> Z.

(** [x] goes before the first element it does not have to follow. *)
Fixpoint insert_sorted (x : A) (l : list A) : list A :=
  match l with
  | [] => [x]
  | y :: l' => if cmp x y <=? 0 then x :: l else y :: insert_sorted x l'
  end.

(** [Array.prototype.sort(cmp)]: the sort is stable (ECMAScript 2019), so
    for a consistent comparator its result is the one of any stable
    sort; this is insertion from the right, which keeps equal elements
    in their original order. *)
Fixpoint sort (l : list A) : list A :=
  match l with
  | [] => []
  | x :: l' => insert_sorted x (sort l')
  end.
End Sort.

(** [Array.prototype.some] *)
Definition some {A : Type} (p : A -> bool) (l : list A) : bool := existsb p l.
End JsArray.

(** ** The computed [filteredNotes] *)

(** The callback that [filteredNotes] passes to [filter]; [q] and [tf] are
    the two constants of its closure. *)
Definition filteredNotes_keep (q tf : string) (n : Note) : bool :=
  let matchesQuery :=
    JsString.is_empty q
    || JsString.includes (JsString.toLowerCase (title n)) q
    || JsString.includes (JsString.toLowerCase (content n)) q
    || JsArray.some (fun t => JsString.includes (JsString.toLowerCase t) q) (tags n) in
  let matchesTag :=
    JsString.is_empty tf
    || JsArray.some (fun t => String.eqb (JsString.toLowerCase t) tf) (tags n) in
  matchesQuery && matchesTag.

(** [filteredNotes]: [query] and [tagFilter] are the two signals' values,
    [notes_list] is [notes.list]. *)
Definition filteredNotes (query tagFilter : string) (notes_list : list Note) : list Note :=
  let q := JsString.toLowerCase (JsString.trim query) in
  let tf := JsString.toLowerCase (JsString.trim tagFilter) in
  JsArray.sort (fun a b => updatedAt b - updatedAt a)
    (List.filter (filteredNotes_keep q tf) notes_list).

(** ** Platform: completions, JSON values, [localStorage] *)

Inductive js_error : Type :=
| SyntaxError
| TypeError
| ReferenceError.

(** The outcome of evaluating a piece of JavaScript: a value or a throw. *)
Inductive completion (A : Type) : Type :=
| Normal (a : A)
| Throw (e : js_error).
Arguments Normal {A} a.
Arguments Throw {A} e.

Definition bind {A B : Type} (c : completion A) (k : A -> completion B) : completion B :=
  match c with
  | Normal a => k a
  | Throw e => Throw e
  end.

(** [try { body } catch { handler }] *)
Definition try_catch {A : Type} (body : completion A) (handler : js_error -> completion A) : completion A :=
  match body with
  | Normal a => Normal a
  | Throw e => handler e
  end.

Notation "'let!' x ':=' c 'in' k" := (bind c (fun x => k))
  (at level 10, x name, c at level 100, k at level 200).

#[local] Unset Elimination Schemes.
(** The values [JSON.parse] can return. An object keeps its members in
    order, as [JSON.stringify] prints them. *)
Inductive json : Type :=
| JNull
| JBool (b : bool)
| JNum (n : Z)
| JStr (s : string)
| JArr (items : list json)
| JObj (members : list (string * json)).
#[local] Set Elimination Schemes.

(** [Array.isArray] *)
Definition isArray (v : json) : bool :=
  match v with
  | JArr _ => true
  | _ => false
  end.

(** The runtime object of a [Note]: its six own properties, in the order of
    the object literal in [createNote] (the spread in [updateNote] keeps
    that order). *)
Definition json_of_note (n : Note) : json :=
  JObj [("id", JStr (id n));
        ("title", JStr (title n));
        ("content", JStr (content n));
        ("tags", JArr (map JStr (tags n)));
        ("createdAt", JNum (createdAt n));
        ("updatedAt", JNum (updatedAt n))].

(** [type User]; [name] is optional. *)
Record User : Type := mkUser {
  email : string;
  name : option string;
}.

(** The runtime object of a [User]; an undefined [name] is not printed. *)
Definition json_of_user (u : User) : json :=
  JObj (("email", JStr (email u))
        :: match name u with
           | Some nm => [("name", JStr nm)]
           | None => []
           end).

Module LocalStorage.
Definition getItem (key : string) (ls : gmap string string) : option string := ls !! key.
Definition setItem (key value : string) (ls : gmap string string) : gmap string string :=
  <[key := value]> ls.
Definition removeItem (key : string) (ls : gmap string string) : gmap string string :=
  delete key ls.
End LocalStorage.

(** [!raw] for [raw : string | null] *)
Definition not_raw (raw : option string) : bool :=
  match raw with
  | None => true
  | Some s => JsString.is_empty s
  end.

Definition LS_NOTES_KEY : string := "notes_frontend__notes".
Definition LS_USER_KEY : string := "notes_frontend__user".
Definition LS_VIEWMODE_KEY : string := "notes_frontend__viewmode".

(** ** Persistence functions *)

Section Persistence.
(** [JSON.parse]: a value, or a [SyntaxError]. *)
Variable JSON_parse : string -> completion json.
(** [JSON.stringify] *)
Variable JSON_stringify : json -> string.

(** [loadNotes]; the cast [as Note[]] checks nothing, so the result is
    the parsed array itself. *)
Definition loadNotes (ls : gmap string string) : completion (list json) :=
  try_catch
    (let raw := LocalStorage.getItem LS_NOTES_KEY ls in
     if not_raw raw then Normal []
     else
       let! parsed := JSON_parse (default EmptyString raw) in
       Normal (if isArray parsed
               then match parsed with JArr items => items | _ => [] end
               else []))
    (fun _ => Normal []).

(** [saveNotes] *)
Definition saveNotes (notes : list Note) (ls : gmap string string) : gmap string string :=
  LocalStorage.setItem LS_NOTES_KEY (JSON_stringify (JArr (map json_of_note notes))) ls.

(** [loadUser]; the result [User | null] is the parsed value itself,
    [JNull] is [null]. *)
Definition loadUser (ls : gmap string string) : completion json :=
  try_catch
    (let raw := LocalStorage.getItem LS_USER_KEY ls in
     if not_raw raw then Normal JNull
     else JSON_parse (default EmptyString raw))
    (fun _ => Normal JNull).

(** [saveUser] *)
Definition saveUser (user : option User) (ls : gmap string string) : gmap string string :=
  match user with
  | Some u => LocalStorage.setItem LS_USER_KEY (JSON_stringify (json_of_user u)) ls
  | None => LocalStorage.removeItem LS_USER_KEY ls
  end.
End Persistence.

(** [uid]: [random36] is the text [Math.random().toString(36)] and [now]
    the value of [Date.now()] at the call. *)
Definition uid (random36 : string) (now : Z) : string :=
  JsString.slice 2 random36 ++ JsString.toString36 now.

(** ** Page state and handlers *)

(** The signals and stores of the page component that the handlers read or
    write, and the browser's [localStorage]. *)
Record App : Type := mkApp {
  notes_list : list Note;
  selectedNote : option Note;
  form : Form;
  showCreate : bool;
  showEdit : bool;
  showDeleteConfirm : bool;
  localStorage : gmap string string;
}.

(** [a || b] on strings *)
Definition or_else (a b : string) : string :=
  if JsString.is_empty a then b else a.

(** [Boolean] on a string *)
Definition Boolean (s : string) : bool := negb (JsString.is_empty s).

Section Handlers.
Variable JSON_stringify : json -> string.

(** [openEdit] *)
Definition openEdit (n : Note) (st : App) : App :=
  mkApp (notes_list st) (Some n)
    (mkForm (title n) (content n) (JsString.join ", " (tags n)))
    (showCreate st) true (showDeleteConfirm st) (localStorage st).

(** [confirmDelete] *)
Definition confirmDelete (n : Note) (st : App) : App :=
  mkApp (notes_list st) (Some n) (form st)
    (showCreate st) (showEdit st) true (localStorage st).

(** [createNote]: [now] is the [Date.now()] of its first line, [random36]
    and [now_uid] are what [uid()] then draws and reads. *)
Definition createNote (now : Z) (random36 : string) (now_uid : Z) (st : App) : App :=
  let newNote :=
    {| id := uid random36 now_uid;
       title := or_else (JsString.trim (form_title (form st))) "Untitled";
       content := JsString.trim (form_content (form st));
       tags := List.filter Boolean
                 (map JsString.trim (JsString.split_comma (form_tags (form st))));
       createdAt := now;
       updatedAt := now |} in
  let list' := newNote :: notes_list st in
  mkApp list' (selectedNote st) (form st)
    false (showEdit st) (showDeleteConfirm st)
    (saveNotes JSON_stringify list' (localStorage st)).

(** [updateNote] *)
Definition updateNote (now : Z) (st : App) : App :=
  match selectedNote st with
  | None => st
  | Some sel =>
      let updated :=
        map (fun n =>
               if String.eqb (id n) (id sel)
               then {| id := id n;
                       title := or_else (JsString.trim (form_title (form st))) "Untitled";
                       content := JsString.trim (form_content (form st));
                       tags := List.filter Boolean
                                 (map JsString.trim (JsString.split_comma (form_tags (form st))));
                       createdAt := createdAt n;
                       updatedAt := now |}
               else n)
            (notes_list st) in
      mkApp updated None (form st)
        (showCreate st) false (showDeleteConfirm st)
        (saveNotes JSON_stringify updated (localStorage st))
  end.

(** [deleteNote] *)
Definition deleteNote (st : App) : App :=
  match selectedNote st with
  | None => st
  | Some sel =>
      let list' := List.filter (fun n => negb (String.eqb (id n) (id sel))) (notes_list st) in
      mkApp list' None (form st)
        (showCreate st) (showEdit st) false
        (saveNotes JSON_stringify list' (localStorage st))
  end.
End Handlers.

(** ** A reference JSON codec

    [stringify] prints the compact text of [JSON.stringify]; [parse] reads
    JSON text (RFC 8259) whose numbers are integers and whose [\u] escapes
    stay within the alphabet of the embedding, and throws a [SyntaxError]
    on anything else. It is a codec for the values this program writes,
    not all of [JSON.parse]: a number with a fraction or an exponent is
    refused where [JSON.parse] reads a double, an integer is read exactly
    where [JSON.parse] rounds beyond 2^53, and an object keeps every member
    in the order of the text where [JSON.parse] keeps the last of a
    repeated key. The statements below parse only what [stringify] prints
    and a few small sample texts without such numbers or keys. *)

Module RefJSON.

(** The quotation mark. *)
Definition dquote : ascii := ascii_of_nat 34.

(** JSON text written with apostrophes in place of quotation marks. *)
Fixpoint text (s : string) : string :=
  match s with
  | EmptyString => EmptyString
  | String c s' => String (if Ascii.eqb c "'" then dquote else c) (text s')
  end.

Definition char_in (c : ascii) (set : string) : bool :=
  existsb (Ascii.eqb c) (list_ascii_of_string set).

(** JSON white space: space, TAB, LF, CR. *)
Definition is_json_ws (c : ascii) : bool :=
  let n := nat_of_ascii c in
  (n =? 32)%nat || (n =? 9)%nat || (n =? 10)%nat || (n =? 13)%nat.

Fixpoint skip_ws (s : string) : string :=
  match s with
  | String c s' => if is_json_ws c then skip_ws s' else s
  | EmptyString => EmptyString
  end.

(** *** Numbers *)

Definition string_of_Z (z : Z) : string := NilZero.string_of_int (Z.to_int z).

(** The characters a JSON number is made of. *)
Definition is_number_char (c : ascii) : bool := char_in c "0123456789-+.eE".

(** The longest prefix of number characters, and what follows it. *)
Fixpoint span_number (s : string) : string * string :=
  match s with
  | String c s' =>
      if is_number_char c
      then let (tok, rest) := span_number s' in (String c tok, rest)
      else (EmptyString, s)
  | EmptyString => (EmptyString, EmptyString)
  end.

(** An integer token: ["-0"], or the canonical decimal text of an
    integer (no sign [+], no leading zero). *)
Definition Z_of_token (tok : string) : option Z :=
  match NilZero.int_of_string tok with
  | Some d =>
      let z := Z.of_int d in
      if String.eqb (string_of_Z z) tok then Some z
      else if String.eqb tok "-0" then Some 0
      else None
  | None => None
  end.

(** *** Strings *)

Definition hex_digit (n : nat) : ascii :=
  if (n <? 10)%nat then ascii_of_nat (48 + n) else ascii_of_nat (87 + n).

Definition hex_value (c : ascii) : option nat :=
  let n := nat_of_ascii c in
  if (48 <=? n)%nat && (n <=? 57)%nat then Some (n - 48)%nat
  else if (97 <=? n)%nat && (n <=? 102)%nat then Some (n - 87)%nat
  else if (65 <=? n)%nat && (n <=? 70)%nat then Some (n - 55)%nat
  else None.

(** How [JSON.stringify] prints one character of a string. *)
Definition escape_char (c : ascii) : string :=
  let n := nat_of_ascii c in
  if (n =? 34)%nat then String "\" (String dquote EmptyString)
  else if (n =? 92)%nat then "\\"
  else if (n =? 8)%nat then "\b"
  else if (n =? 9)%nat then "\t"
  else if (n =? 10)%nat then "\n"
  else if (n =? 12)%nat then "\f"
  else if (n =? 13)%nat then "\r"
  else if (n <? 32)%nat
       then "\u00" ++ String (hex_digit (n / 16)) (String (hex_digit (n mod 16)) EmptyString)
  else String c EmptyString.

Fixpoint escape (s : string) : string :=
  match s with
  | EmptyString => EmptyString
  | String c s' => escape_char c ++ escape s'
  end.

Definition quote (s : string) : string :=
  String dquote (escape s ++ String dquote EmptyString).

(** The character a one-letter escape stands for. *)
Definition simple_escape (e : ascii) : option ascii :=
  let n := nat_of_ascii e in
  if (n =? 34)%nat then Some e
  else if (n =? 92)%nat then Some e
  else if (n =? 47)%nat then Some e
  else if (n =? 98)%nat then Some (ascii_of_nat 8)
  else if (n =? 102)%nat then Some (ascii_of_nat 12)
  else if (n =? 110)%nat then Some (ascii_of_nat 10)
  else if (n =? 114)%nat then Some (ascii_of_nat 13)
  else if (n =? 116)%nat then Some (ascii_of_nat 9)
  else None.

(** The code unit of [\uXXXX], when it is below 256. *)
Definition unicode_escape (h1 h2 h3 h4 : ascii) : option ascii :=
  match hex_value h1, hex_value h2, hex_value h3, hex_value h4 with
  | Some a, Some b, Some c, Some d =>
      if (a =? 0)%nat && (b =? 0)%nat then Some (ascii_of_nat (16 * c + d)) else None
  | _, _, _, _ => None
  end.

Definition cons_char (c : option ascii) (r : option (string * string)) : option (string * string) :=
  match c, r with
  | Some c, Some (str, rest) => Some (String c str, rest)
  | _, _ => None
  end.

(** The text after an opening quote: the string it denotes and what
    follows the closing quote. *)
Fixpoint parse_string_body (s : string) : option (string * string) :=
  match s with
  | EmptyString => None
  | String c r =>
      if Ascii.eqb c dquote then Some (EmptyString, r)
      else if Ascii.eqb c "\" then
        match r with
        | String e r1 =>
            if Ascii.eqb e "u" then
              match r1 with
              | String h1 (String h2 (String h3 (String h4 r2))) =>
                  cons_char (unicode_escape h1 h2 h3 h4) (parse_string_body r2)
              | _ => None
              end
            else cons_char (simple_escape e) (parse_string_body r1)
        | EmptyString => None
        end
      else if (nat_of_ascii c <? 32)%nat then None
      else cons_char (Some c) (parse_string_body r)
  end.

(** *** Values *)

Fixpoint stringify (v : json) : string :=
  match v with
  | JNull => "null"
  | JBool true => "true"
  | JBool false => "false"
  | JNum z => string_of_Z z
  | JStr s => quote s
  | JArr items => "[" ++ JsString.join "," (map stringify items) ++ "]"
  | JObj members =>
      "{" ++ JsString.join ","
               (map (fun kv => quote (fst kv) ++ ":" ++ stringify (snd kv)) members)
          ++ "}"
  end.

(** [lit] is expected next. *)
Definition expect {A : Type} (lit : string) (s : string) (a : A) : option (A * string) :=
  if JsString.startsWith lit s then Some (a, JsString.slice (String.length lit) s) else None.

(** The elements of an array after the first [parse_value]-able position,
    up to and including the closing bracket. *)
Fixpoint parse_elements (parse_value : string -> option (json * string))
    (fuel : nat) (s : string) : option (list json * string) :=
  match fuel with
  | O => None
  | S fuel' =>
      match parse_value s with
      | Some (v, r) =>
          match skip_ws r with
          | String c r' =>
              if Ascii.eqb c "," then
                match parse_elements parse_value fuel' r' with
                | Some (vs, r'') => Some (v :: vs, r'')
                | None => None
                end
              else if Ascii.eqb c "]" then Some ([v], r')
              else None
          | EmptyString => None
          end
      | None => None
      end
  end.

(** One member ["key" : value]. *)
Definition parse_member (parse_value : string -> option (json * string))
    (s : string) : option ((string * json) * string) :=
  match skip_ws s with
  | String q r =>
      if Ascii.eqb q dquote then
        match parse_string_body r with
        | Some (key, r1) =>
            match skip_ws r1 with
            | String c r2 =>
                if Ascii.eqb c ":" then
                  match parse_value r2 with
                  | Some (v, r3) => Some ((key, v), r3)
                  | None => None
                  end
                else None
            | EmptyString => None
            end
        | None => None
        end
      else None
  | EmptyString => None
  end.

(** The members of an object, up to and including the closing brace. *)
Fixpoint parse_members (parse_value : string -> option (json * string))
    (fuel : nat) (s : string) : option (list (string * json) * string) :=
  match fuel with
  | O => None
  | S fuel' =>
      match parse_member parse_value s with
      | Some (kv, r) =>
          match skip_ws r with
          | String c r' =>
              if Ascii.eqb c "," then
                match parse_members parse_value fuel' r' with
                | Some (kvs, r'') => Some (kv :: kvs, r'')
                | None => None
                end
              else if Ascii.eqb c "}" then Some ([kv], r')
              else None
          | EmptyString => None
          end
      | None => None
      end
  end.

(** One value, after optional white space. *)
Fixpoint parse_value (fuel : nat) (s : string) : option (json * string) :=
  match fuel with
  | O => None
  | S fuel' =>
      match skip_ws s with
      | EmptyString => None
      | String c r =>
          if Ascii.eqb c "n" then expect "ull" r JNull
          else if Ascii.eqb c "t" then expect "rue" r (JBool true)
          else if Ascii.eqb c "f" then expect "alse" r (JBool false)
          else if Ascii.eqb c dquote then
            match parse_string_body r with
            | Some (str, r') => Some (JStr str, r')
            | None => None
            end
          else if Ascii.eqb c "[" then
            match skip_ws r with
            | String c' r' =>
                if Ascii.eqb c' "]" then Some (JArr [], r')
                else match parse_elements (parse_value fuel') fuel' r with
                     | Some (vs, r'') => Some (JArr vs, r'')
                     | None => None
                     end
            | EmptyString => None
            end
          else if Ascii.eqb c "{" then
            match skip_ws r with
            | String c' r' =>
                if Ascii.eqb c' "}" then Some (JObj [], r')
                else match parse_members (parse_value fuel') fuel' r with
                     | Some (kvs, r'') => Some (JObj kvs, r'')
                     | None => None
                     end
            | EmptyString => None
            end
          else
            let (tok, rest) := span_number (String c r) in
            match Z_of_token tok with
            | Some z => Some (JNum z, rest)
            | None => None
            end
      end
  end.

(** [JSON.parse]: one value, then only white space. The fuel is the length
    of the text: every recursive call comes after a consumed character. *)
Definition parse (s : string) : completion json :=
  match parse_value (S (String.length s)) s with
  | Some (v, rest) =>
      if JsString.is_empty (skip_ws rest) then Normal v else Throw SyntaxError
  | None => Throw SyntaxError
  end.

End RefJSON.

(** ** Vocabulary of the statements *)

Module Spec.
(** A string of white space only. *)
Fixpoint all_white_space (s : string) : bool :=
  match s with
  | EmptyString => true
  | String c s' => JsString.is_white_space c && all_white_space s'
  end.

Definition first_char (s : string) : option ascii :=
  match s with
  | EmptyString => None
  | String c _ => Some c
  end.

Fixpoint last_char (s : string) : option ascii :=
  match s with
  | EmptyString => None
  | String c EmptyString => Some c
  | String _ s' => last_char s'
  end.

(** The character, if there is one, is not white space. *)
Definition not_white_space (c : option ascii) : Prop :=
  match c with
  | Some c => JsString.is_white_space c = false
  | None => True
  end.

(** [t] is [s] without its leading and trailing white space. *)
Definition trimmed_of (s t : string) : Prop :=
  exists l r, s = l ++ t ++ r
    /\ all_white_space l = true /\ all_white_space r = true
    /\ not_white_space (first_char t) /\ not_white_space (last_char t).

Fixpoint no_comma (s : string) : bool :=
  match s with
  | EmptyString => true
  | String c s' => negb (Ascii.eqb c ",") && no_comma s'
  end.

(** The title that create and update store for a form title. *)
Definition normal_title (raw : string) : string :=
  if JsString.is_empty (JsString.trim raw) then "Untitled" else JsString.trim raw.

(** The tags that create and update store for a form tag line: the pieces
    between the commas, trimmed, the empty ones dropped. *)
Definition normal_tags (tagsRaw : string) : list string :=
  List.filter (fun t => negb (JsString.is_empty t))
    (map JsString.trim (JsString.split_comma tagsRaw)).

(** The ids of a collection, in order. *)
Definition ids (l : list Note) : list string := map id l.

(** The code units with a lower case form 32 places up: A to Z, and the
    Latin-1 capitals U+00C0 to U+00D6 and U+00D8 to U+00DE. *)
Definition upper_case_codes : list nat :=
  (seq 65 26 ++ seq 192 23 ++ seq 216 7)%list.

Definition lower_case_char (c : ascii) : ascii :=
  if existsb (Nat.eqb (nat_of_ascii c)) upper_case_codes
  then ascii_of_nat (nat_of_ascii c + 32)
  else c.

(** [s] lower-cased, character by character. *)
Fixpoint lower_case (s : string) : string :=
  match s with
  | EmptyString => EmptyString
  | String c s' => String (lower_case_char c) (lower_case s')
  end.

(** [q] is [s] trimmed and lower-cased. *)
Definition normalized_of (s q : string) : Prop :=
  exists t, trimmed_of s t /\ q = lower_case t.

(** [t] is the title stored for the form title [raw]: [raw] trimmed, or
    "Untitled" when that is empty. *)
Definition title_of (raw t : string) : Prop :=
  exists x, trimmed_of raw x
    /\ t = match x with EmptyString => "Untitled" | String _ _ => x end.

(** [pieces] are the parts of [raw] between its commas: they hold no comma
    and, joined by commas, they give [raw] back. *)
Definition split_of (raw : string) (pieces : list string) : Prop :=
  String.concat "," pieces = raw
  /\ pieces <> []
  /\ Forall (fun p => no_comma p = true) pieces.

(** [ts] are the tags stored for the form tag line [raw]: [raw] split on
    commas, each entry trimmed, the empty entries dropped. *)
Definition tags_of (raw : string) (ts : list string) : Prop :=
  exists pieces trimmed,
    split_of raw pieces
    /\ Forall2 trimmed_of pieces trimmed
    /\ ts = List.filter
              (fun t => match t with EmptyString => false | String _ _ => true end)
              trimmed.

(** What update does to one note [old] of the collection, giving [new]:
    [target] is the id it aims at, [f] the form, [now] the current time. *)
Definition updated_as (target : string) (f : Form) (now : Z) (old new : Note) : Prop :=
  (id old = target ->
     id new = id old
     /\ createdAt new = createdAt old
     /\ title_of (form_title f) (title new)
     /\ trimmed_of (form_content f) (content new)
     /\ tags_of (form_tags f) (tags new)
     /\ updatedAt new = now)
  /\ (id old <> target -> new = old).
End Spec.

(** The predicates of the query, in the words of the specification; [q]
    and [tf] are the normalized search text and tag filter. *)
Module QuerySpec.
(** [sub] occurs in [s]. *)
Definition contains (s sub : string) : Prop :=
  exists pre post : string, s = pre ++ sub ++ post.

Definition text_predicate (q : string) (n : Note) : Prop :=
  q = EmptyString
  \/ contains (Spec.lower_case (title n)) q
  \/ contains (Spec.lower_case (content n)) q
  \/ (exists t, In t (tags n) /\ contains (Spec.lower_case t) q).

Definition tag_predicate (tf : string) (n : Note) : Prop :=
  tf = EmptyString
  \/ (exists t, In t (tags n) /\ Spec.lower_case t = tf).

Definition matches (q tf : string) (n : Note) : Prop :=
  text_predicate q n /\ tag_predicate tf n.

(** Most recently updated first. *)
Definition newer_first (a b : Note) : Prop := updatedAt b <= updatedAt a.
End QuerySpec.

(** ** Sample data *)

Module Sample.
(** The two notes of the query examples. *)
Definition tokyo : Note :=
  mkNote "k3x9a1m30l7y80" "Trip to Tokyo" "Flights and hotel" ["travel"; "japan"] 1000 3000.
Definition budget : Note :=
  mkNote "p07qzbm30l7y9c" "Budget" "Q3 numbers" ["work"] 2000 4000.

(** A second note that carries the id of [tokyo]. *)
Definition tokyo_twin : Note :=
  mkNote "k3x9a1m30l7y80" "Kyoto" EmptyString [] 5000 5000.

Definition blank_form : Form := mkForm EmptyString EmptyString EmptyString.
Definition edit_form : Form := mkForm "  Trip to Osaka " " Shinkansen  " "travel, ,Japan,, rail ".

Definition page (l : list Note) (sel : option Note) (f : Form) : App :=
  mkApp l sel f false false false ∅.

(** Two notes that break the write-time rules: a blank title, blank tags,
    [createdAt] after [updatedAt], and the same id twice. *)
Definition blank : Note :=
  mkNote "a" "  " EmptyString [EmptyString; " "] 9 3.
Definition blank_twin : Note :=
  mkNote "a" EmptyString "x" [] 1 1.

(** A payload for the notes key that holds [blank] and [blank_twin]. *)
Definition unruly_payload : string :=
  RefJSON.text
    "[{'id':'a','title':'  ','content':'','tags':['',' '],'createdAt':9,'updatedAt':3}, {'id':'a','title':'','content':'x','tags':[],'createdAt':1,'updatedAt':1}]".
End Sample.

(** ** The rest of the page: session, filters, view mode, start-up *)

(** [viewMode]: ["grid"] or ["list"]. *)
Inductive ViewMode : Type :=
| ViewGrid
| ViewList.

(** The string a view mode is in the source. *)
Definition viewMode_text (m : ViewMode) : string :=
  match m with
  | ViewGrid => "grid"
  | ViewList => "list"
  end.

(** The signals of the page component beside those of [App]. [user] holds
    what [loadUser] returned or what [login] built, [JNull] for [null]. *)
Record Page : Type := mkPage {
  app : App;
  user : json;
  query : string;
  tagFilter : string;
  viewMode : ViewMode;
  mobileSidebarOpen : bool;
}.

(** [filteredNotes.value]: the computed, read off the signals. *)
Definition filteredNotes_value (p : Page) : list Note :=
  filteredNotes (query p) (tagFilter p) (notes_list (app p)).

(** [localStorage] after a write by a handler. *)
Definition with_localStorage (ls : gmap string string) (st : App) : App :=
  mkApp (notes_list st) (selectedNote st) (form st)
    (showCreate st) (showEdit st) (showDeleteConfirm st) ls.

(** [openCreate] *)
Definition openCreate (st : App) : App :=
  mkApp (notes_list st) (selectedNote st)
    (mkForm EmptyString EmptyString EmptyString)
    true (showEdit st) (showDeleteConfirm st) (localStorage st).

(** The [onClick$] of a tag chip: [tagFilter.value = t]. *)
Definition selectTag (t : string) (p : Page) : Page :=
  mkPage (app p) (user p) (query p) t (viewMode p) (mobileSidebarOpen p).

(** [clearFilters] *)
Definition clearFilters (p : Page) : Page :=
  mkPage (app p) (user p) EmptyString EmptyString (viewMode p) (mobileSidebarOpen p).

(** [toggleView] *)
Definition toggleView (p : Page) : Page :=
  let viewMode' :=
    match viewMode p with
    | ViewGrid => ViewList
    | ViewList => ViewGrid
    end in
  mkPage
    (with_localStorage
       (LocalStorage.setItem LS_VIEWMODE_KEY (viewMode_text viewMode')
          (localStorage (app p)))
       (app p))
    (user p) (query p) (tagFilter p) viewMode' (mobileSidebarOpen p).

(** The last two lines of the start-up task: the stored view mode when it
    is one of the two literals, the current one otherwise. *)
Definition loadViewMode (ls : gmap string string) (current : ViewMode) : ViewMode :=
  match LocalStorage.getItem LS_VIEWMODE_KEY ls with
  | Some vm =>
      if String.eqb vm "grid" then ViewGrid
      else if String.eqb vm "list" then ViewList
      else current
  | None => current
  end.

Section Session.
Variable JSON_parse : string -> completion json.
Variable JSON_stringify : json -> string.

(** [login] *)
Definition login (email : string) (name : option string) (p : Page) : Page :=
  let u := mkUser email name in
  mkPage
    (with_localStorage (saveUser JSON_stringify (Some u) (localStorage (app p))) (app p))
    (json_of_user u) (query p) (tagFilter p) (viewMode p) (mobileSidebarOpen p).

(** [logout] *)
Definition logout (p : Page) : Page :=
  mkPage
    (with_localStorage (saveUser JSON_stringify None (localStorage (app p))) (app p))
    JNull (query p) (tagFilter p) (viewMode p) (mobileSidebarOpen p).

(** A reference to the global [localStorage]: the store, or a
    [ReferenceError] where there is none. *)
Definition the_localStorage (env : option (gmap string string))
    : completion (gmap string string) :=
  match env with
  | Some ls => Normal ls
  | None => Throw ReferenceError
  end.

(** [loadUser] where [localStorage] may be missing: the reference to it is
    inside the [try]. *)
Definition loadUser_in (env : option (gmap string string)) : completion json :=
  try_catch
    (let! ls := the_localStorage env in
     let raw := LocalStorage.getItem LS_USER_KEY ls in
     if not_raw raw then Normal JNull
     else JSON_parse (default EmptyString raw))
    (fun _ => Normal JNull).

(** [loadNotes] where [localStorage] may be missing: the reference to it is
    inside the [try]. *)
Definition loadNotes_in (env : option (gmap string string)) : completion (list json) :=
  try_catch
    (let! ls := the_localStorage env in
     let raw := LocalStorage.getItem LS_NOTES_KEY ls in
     if not_raw raw then Normal []
     else
       let! parsed := JSON_parse (default EmptyString raw) in
       Normal (if isArray parsed
               then match parsed with JArr items => items | _ => [] end
               else []))
    (fun _ => Normal []).

(** The start-up task ([useTask$]): the values it assigns to [user.value],
    [notes.list] and [viewMode.value], in that order. The task has no
    [try]/[catch] of its own, and its own [localStorage.getItem] is
    outside those of the two loaders. *)
Definition loadPersisted (env : option (gmap string string)) (current : ViewMode)
    : completion (json * list json * ViewMode) :=
  let! u := loadUser_in env in
  let! l := loadNotes_in env in
  let! ls := the_localStorage env in
  Normal (u, l, loadViewMode ls current).
End Session.

(** ** Vocabulary for the written notes *)

Module Written.
(** A tag as create and update write it: trimmed, not empty, without a
    comma. *)
Definition tag_ok (t : string) : Prop :=
  JsString.trim t = t /\ JsString.is_empty t = false /\ Spec.no_comma t = true.

(** A note as create and update write it. *)
Definition note_ok (n : Note) : Prop :=
  JsString.trim (title n) = title n
  /\ JsString.is_empty (title n) = false
  /\ JsString.trim (content n) = content n
  /\ Forall tag_ok (tags n).

(** Created no later than updated. *)
Definition dated (n : Note) : Prop := createdAt n <= updatedAt n.

(** [n] with another [updatedAt]. *)
Definition touched (now : Z) (n : Note) : Note :=
  mkNote (id n) (title n) (content n) (tags n) (createdAt n) now.
End Written.

(** ** Sample pages *)

Module SamplePage.
(** A page with the two sample notes, a blank search box and no tag
    filter. *)
Definition home : Page :=
  mkPage (Sample.page [Sample.tokyo; Sample.budget] None Sample.blank_form)
    JNull "  " EmptyString ViewGrid false.

(** A store with a session and a view mode. *)
Definition store : gmap string string :=
  <[LS_USER_KEY := RefJSON.text "{'email':'ann@example.org','name':'Ann'}"]>
    (<[LS_VIEWMODE_KEY := "list"]> ∅).

(** A note whose only tag has a leading space, as a stored payload can
    hold it. *)
Definition spaced : Note :=
  mkNote "s1" "Spaced" EmptyString [" a"] 1 1.

(** NO-BREAK SPACE, and the letters E and e with an acute accent. *)
Definition nbsp : ascii := ascii_of_nat 160.
Definition E_acute : ascii := ascii_of_nat 201.
Definition e_acute : ascii := ascii_of_nat 233.

(** A note titled with a capital E acute followed by [cole]. *)
Definition ecole : Note :=
  mkNote "e1" (String E_acute "cole") EmptyString [] 1 1.

(** A form filled with no-break spaces: around the content, and alone as
    the title and as the middle tag. *)
Definition nbsp_form : Form :=
  mkForm (String nbsp EmptyString)
    (String nbsp (String "x" (String nbsp EmptyString)))
    (String "a" (String "," (String nbsp (String "," (String "b" EmptyString))))).
End SamplePage.

(** * Properties *)

(** ** The platform functions on sample inputs *)

Example trim_ex : JsString.trim (String "009"%char "  a b  " ++ String "010"%char EmptyString) = "a b".
Proof. reflexivity. Qed.
Example split_ex : JsString.split_comma "a, b,,c," = ["a"; " b"; EmptyString; "c"; EmptyString].
Proof. reflexivity. Qed.
Example split_ex0 : JsString.split_comma EmptyString = [EmptyString].
Proof. reflexivity. Qed.
Example lower_ex : JsString.toLowerCase "Trip to Tokyo!" = "trip to tokyo!".
Proof. reflexivity. Qed.
Example incl_ex : JsString.includes "trip to tokyo" "tokyo" = true /\ JsString.includes "abc" EmptyString = true /\ JsString.includes "abc" "bd" = false.
Proof. repeat split; reflexivity. Qed.
Example ts36 : JsString.toString36 1730577600000 = "m30l7y80" /\ JsString.toString36 0 = "0" /\ JsString.toString36 35 = "z" /\ JsString.toString36 36 = "10".
Proof. repeat split; vm_compute; reflexivity. Qed.

Example refjson_ex1 :
  RefJSON.parse (RefJSON.text " [1, -20 , 'a\nA', {'k' : [true,false,null], 'z':{}} , [] ] ")
  = Normal (JArr [JNum 1; JNum (-20); JStr (String "a" (String "010" "A")); JObj [("k", JArr [JBool true; JBool false; JNull]); ("z", JObj [])]; JArr []]).
Proof. vm_compute. reflexivity. Qed.
Example refjson_ex2 :
  RefJSON.stringify (JArr [JNum 1; JNum (-20); JStr (String "a" (String "010" (String "A" (String RefJSON.dquote "\")))); JObj [("k", JArr [JBool true; JBool false; JNull]); ("z", JObj [])]; JArr []])
  = RefJSON.text "[1,-20,'a\nA\'\\',{'k':[true,false,null],'z':{}},[]]".
Proof. vm_compute. reflexivity. Qed.
Example refjson_ex3 :
  RefJSON.parse "not json" = Throw SyntaxError /\ RefJSON.parse EmptyString = Throw SyntaxError
  /\ RefJSON.parse "01" = Throw SyntaxError /\ RefJSON.parse "[1,]" = Throw SyntaxError
  /\ RefJSON.parse "-0" = Normal (JNum 0) /\ RefJSON.parse (RefJSON.text "{'a':1} x") = Throw SyntaxError
  /\ RefJSON.parse "nul" = Throw SyntaxError /\ RefJSON.parse "1.5" = Throw SyntaxError.
Proof. vm_compute. repeat split; reflexivity. Qed.

(** No-break spaces are trimmed and accented capitals are lower-cased, as
    [String.prototype.trim] and [String.prototype.toLowerCase] do. *)
Example latin1_ex :
  JsString.trim (String SamplePage.nbsp (String "a" (String SamplePage.nbsp EmptyString)))
  = "a"
  /\ JsString.toLowerCase (String SamplePage.E_acute "COLE")
     = String SamplePage.e_acute "cole"
  /\ JsString.toLowerCase (String (ascii_of_nat 215) EmptyString)
     = String (ascii_of_nat 215) EmptyString
  /\ filteredNotes (String SamplePage.e_acute EmptyString) EmptyString [SamplePage.ecole]
     = [SamplePage.ecole]
  /\ map (fun n => (title n, content n, tags n))
       (notes_list (createNote RefJSON.stringify 7000 "0.4fzyo82mvyr" 7001
                      (Sample.page [] None SamplePage.nbsp_form)))
     = [("Untitled", "x", ["a"; "b"])].
Proof. vm_compute. repeat split; reflexivity. Qed.

(** ** Strings *)

Module JsStringFacts.
Import JsString.

Lemma is_empty_true (s : string) : is_empty s = true <-> s = EmptyString.
Proof. destruct s; simpl; split; congruence. Qed.

Lemma append_cons (c : ascii) (s t : string) : String c s ++ t = String c (s ++ t).
Proof. reflexivity. Qed.

Lemma append_nil_l (t : string) : EmptyString ++ t = t.
Proof. reflexivity. Qed.

Lemma startsWith_spec (p s : string) :
  startsWith p s = true <-> exists post, s = p ++ post.
Proof.
  revert s. induction p as [|a p IH]; intros s; simpl.
  - split; [intros _; exists s; reflexivity | reflexivity].
  - destruct s as [|b s]; simpl.
    + split; [discriminate | intros [post H]; discriminate].
    + destruct (Ascii.eqb_spec a b) as [->|Hab].
      * rewrite IH. split; intros [post H]; exists post.
        -- rewrite append_cons. f_equal. exact H.
        -- rewrite append_cons in H. injection H as H. exact H.
      * split; [discriminate | intros [post H]].
        rewrite append_cons in H. congruence.
Qed.

(** [includes] decides the occurrence of a substring. *)
Lemma includes_spec (s p : string) :
  includes s p = true <-> exists pre post, s = pre ++ p ++ post.
Proof.
  induction s as [|c s IH].
  - simpl. destruct (startsWith p EmptyString) eqn:E.
    + apply startsWith_spec in E. destruct E as [post E].
      split; [intros _; exists EmptyString, post; exact E | reflexivity].
    + split; [discriminate|]. intros [pre [post H]].
      destruct pre; [|discriminate]. rewrite append_nil_l in H.
      assert (startsWith p EmptyString = true)
        by (apply startsWith_spec; exists post; exact H).
      congruence.
  - cbn [includes]. destruct (startsWith p (String c s)) eqn:E.
    + apply startsWith_spec in E. destruct E as [post E].
      split; [intros _; exists EmptyString, post; exact E | reflexivity].
    + rewrite IH. split.
      * intros [pre [post H]]. exists (String c pre), post.
        rewrite append_cons. congruence.
      * intros [pre [post H]]. destruct pre as [|c' pre].
        -- rewrite append_nil_l in H.
           assert (startsWith p (String c s) = true)
             by (apply startsWith_spec; exists post; exact H).
           congruence.
        -- rewrite append_cons in H. injection H as _ H. exists pre, post. exact H.
Qed.
Lemma trimStart_spec (s : string) :
  exists l, s = l ++ trimStart s
    /\ Spec.all_white_space l = true
    /\ Spec.not_white_space (Spec.first_char (trimStart s)).
Proof.
  induction s as [|c s IH].
  - exists EmptyString. repeat split.
  - cbn [trimStart]. destruct (is_white_space c) eqn:Hc.
    + destruct IH as [l [Hs [Hl Hf]]]. exists (String c l).
      rewrite append_cons. cbn [Spec.all_white_space]. rewrite Hc, Hl.
      repeat split; [congruence | exact Hf].
    + exists EmptyString. repeat split. exact Hc.
Qed.

Lemma trimEnd_spec (s : string) :
  exists r, s = trimEnd s ++ r
    /\ Spec.all_white_space r = true
    /\ Spec.not_white_space (Spec.last_char (trimEnd s))
    /\ (Spec.not_white_space (Spec.first_char s) ->
        Spec.not_white_space (Spec.first_char (trimEnd s))).
Proof.
  induction s as [|c s IH].
  - exists EmptyString. repeat split.
  - destruct IH as [r [Hs [Hr [Hl _]]]]. cbn [trimEnd].
    destruct (is_white_space c) eqn:Hc; cbn [andb].
    + destruct (trimEnd s) as [|d t] eqn:Ht; cbn [is_empty].
      * exists (String c s). rewrite append_nil_l. rewrite append_nil_l in Hs.
        cbn [Spec.all_white_space]. rewrite Hc, Hs, Hr. repeat split.
      * exists r. rewrite append_cons. repeat split; [congruence | exact Hr | exact Hl |].
        intros H. exact H.
    + exists r. rewrite append_cons. repeat split; [congruence | exact Hr | | intros H; exact H].
      destruct (trimEnd s) as [|d t]; [exact Hc | exact Hl].
Qed.

Lemma append_assoc (a b c : string) : (a ++ b) ++ c = a ++ b ++ c.
Proof.
  induction a as [|x a IH]; [reflexivity|].
  rewrite !append_cons. f_equal. exact IH.
Qed.

(** [trim] removes the white space at both ends, and nothing else. *)
Lemma trim_spec (s : string) : Spec.trimmed_of s (trim s).
Proof.
  unfold Spec.trimmed_of, trim.
  destruct (trimStart_spec s) as [l [Hs [Hl Hf]]].
  destruct (trimEnd_spec (trimStart s)) as [r [Hs' [Hr [Hlast Hfirst]]]].
  exists l, r. repeat split; try assumption.
  - rewrite <- Hs'. exact Hs.
  - apply Hfirst. exact Hf.
Qed.

Lemma split_comma_nonempty (s : string) : split_comma s <> [].
Proof.
  destruct s as [|c s]; cbn [split_comma]; [discriminate|].
  destruct (Ascii.eqb c ","); [discriminate|].
  destruct (split_comma s); discriminate.
Qed.

(** [split(",")] cuts at every comma and only there: the pieces hold no
    comma, and joined by commas they give the string back. *)
Lemma split_comma_spec (s : string) :
  join "," (split_comma s) = s /\ forallb Spec.no_comma (split_comma s) = true.
Proof.
  induction s as [|c s [IHj IHn]]; [split; reflexivity|].
  cbn [split_comma]. pose proof (split_comma_nonempty s) as Hne.
  destruct (Ascii.eqb c ",") eqn:Hc.
  - apply Ascii.eqb_eq in Hc. subst c.
    destruct (split_comma s) as [|p rest]; [congruence|].
    split.
    + change (join "," (EmptyString :: p :: rest))
        with (String "," (join "," (p :: rest))). rewrite IHj. reflexivity.
    + cbn [forallb Spec.no_comma]. exact IHn.
  - destruct (split_comma s) as [|p rest]; [congruence|].
    split.
    + rewrite <- IHj. destruct rest as [|p' rest']; reflexivity.
    + cbn [forallb Spec.no_comma] in *. rewrite Hc. exact IHn.
Qed.
End JsStringFacts.

(** ** The vocabulary of the statements and the platform functions *)

Module SpecFacts.
Import JsString.
Import JsStringFacts.

Lemma lower_char_spec (c : ascii) : lower_char c = Spec.lower_case_char c.
Proof. destruct c as [[] [] [] [] [] [] [] []]; vm_compute; reflexivity. Qed.

(** [toLowerCase] lower-cases. *)
Lemma toLowerCase_spec (s : string) : toLowerCase s = Spec.lower_case s.
Proof.
  induction s as [|c s IH]; [reflexivity|].
  cbn [toLowerCase Spec.lower_case]. rewrite lower_char_spec, IH. reflexivity.
Qed.

Lemma trimStart_white_space (l x : string) :
  Spec.all_white_space l = true -> trimStart (l ++ x) = trimStart x.
Proof.
  induction l as [|c l IH]; [reflexivity|].
  cbn [Spec.all_white_space]. intros H. apply andb_true_iff in H. destruct H as [Hc Hl].
  rewrite append_cons. cbn [trimStart]. rewrite Hc. apply IH, Hl.
Qed.

Lemma trimStart_blank (r : string) :
  Spec.all_white_space r = true -> trimStart r = EmptyString.
Proof.
  induction r as [|c r IH]; [reflexivity|].
  cbn [Spec.all_white_space trimStart]. intros H. apply andb_true_iff in H.
  destruct H as [Hc Hr]. rewrite Hc. apply IH, Hr.
Qed.

Lemma trimEnd_blank (r : string) :
  Spec.all_white_space r = true -> trimEnd r = EmptyString.
Proof.
  induction r as [|c r IH]; [reflexivity|].
  cbn [Spec.all_white_space trimEnd]. intros H. apply andb_true_iff in H.
  destruct H as [Hc Hr]. rewrite (IH Hr), Hc. reflexivity.
Qed.

Lemma trimEnd_white_space (t r : string) :
  t <> EmptyString ->
  Spec.not_white_space (Spec.last_char t) ->
  Spec.all_white_space r = true ->
  trimEnd (t ++ r) = t.
Proof.
  induction t as [|c t IH]; intros Hne Hlast Hr; [congruence|].
  rewrite append_cons. cbn [trimEnd]. destruct t as [|d t'].
  - rewrite append_nil_l, (trimEnd_blank r Hr). cbn in Hlast. rewrite Hlast. reflexivity.
  - rewrite IH; [|discriminate|exact Hlast|exact Hr].
    cbn [is_empty]. rewrite andb_false_r. reflexivity.
Qed.

(** [trim] is the only way to take the white space off both ends. *)
Lemma trimmed_of_trim (s t : string) : Spec.trimmed_of s t -> t = trim s.
Proof.
  intros (l & r & -> & Hl & Hr & Hfirst & Hlast). unfold trim.
  rewrite (trimStart_white_space l _ Hl). destruct t as [|c t].
  - rewrite append_nil_l, (trimStart_blank r Hr). reflexivity.
  - rewrite append_cons. cbn [trimStart]. cbn in Hfirst. rewrite Hfirst.
    rewrite <- append_cons. symmetry.
    apply trimEnd_white_space; [discriminate | exact Hlast | exact Hr].
Qed.

Lemma trimmed_of_unique (s t t' : string) :
  Spec.trimmed_of s t -> Spec.trimmed_of s t' -> t = t'.
Proof.
  intros H H'. rewrite (trimmed_of_trim s t H), (trimmed_of_trim s t' H'). reflexivity.
Qed.

(** The normalized filter of the code is the trimmed, lower-cased text,
    and nothing else is. *)
Lemma normalized_of_iff (s q : string) :
  Spec.normalized_of s q <-> q = toLowerCase (trim s).
Proof.
  unfold Spec.normalized_of. split.
  - intros (t & Ht & ->). rewrite (trimmed_of_trim s t Ht), toLowerCase_spec. reflexivity.
  - intros ->. exists (trim s). split; [apply trim_spec | apply toLowerCase_spec].
Qed.

(** The stored title is the trimmed form title or "Untitled", and nothing
    else is. *)
Lemma title_of_iff (raw t : string) :
  Spec.title_of raw t <-> t = or_else (trim raw) "Untitled".
Proof.
  unfold Spec.title_of, or_else. split.
  - intros (x & Hx & ->). rewrite <- (trimmed_of_trim raw x Hx). destruct x; reflexivity.
  - intros ->. exists (trim raw). split; [apply trim_spec|]. destruct (trim raw); reflexivity.
Qed.

Lemma concat_join (sep : string) (l : list string) :
  String.concat sep l = join sep l.
Proof.
  induction l as [|p l IH]; [reflexivity|].
  destruct l as [|p' l']; [reflexivity|].
  cbn [String.concat join] in *. rewrite IH. reflexivity.
Qed.

Lemma split_comma_plain (a : string) :
  Spec.no_comma a = true -> split_comma a = [a].
Proof.
  induction a as [|c a IH]; [reflexivity|].
  cbn [Spec.no_comma split_comma]. intros H. apply andb_true_iff in H.
  destruct H as [Hc Ha]. apply negb_true_iff in Hc. rewrite Hc, (IH Ha). reflexivity.
Qed.

Lemma split_comma_at_comma (a b : string) :
  Spec.no_comma a = true ->
  split_comma (a ++ String "," b) = a :: split_comma b.
Proof.
  induction a as [|c a IH]; [reflexivity|].
  cbn [Spec.no_comma]. intros H. apply andb_true_iff in H.
  destruct H as [Hc Ha]. apply negb_true_iff in Hc.
  rewrite append_cons. cbn [split_comma]. rewrite Hc, (IH Ha). reflexivity.
Qed.

(** [split(",")] gives the comma-free pieces that join back to the string,
    and no other list of strings does. *)
Lemma split_of_iff (raw : string) (pieces : list string) :
  Spec.split_of raw pieces <-> pieces = split_comma raw.
Proof.
  unfold Spec.split_of. split.
  - intros (<- & Hne & Hall). rewrite concat_join.
    induction pieces as [|p l IH]; [congruence|].
    inversion Hall as [|? ? Hp Hl]; subst. destruct l as [|p' l'].
    + cbn [join]. symmetry. apply split_comma_plain, Hp.
    + change (join "," (p :: p' :: l')) with (p ++ String "," (join "," (p' :: l'))).
      rewrite (split_comma_at_comma _ _ Hp). f_equal.
      apply IH; [discriminate | exact Hl].
  - intros ->. destruct (split_comma_spec raw) as [Hjoin Hall].
    rewrite concat_join. split; [exact Hjoin|]. split; [apply split_comma_nonempty|].
    apply List.Forall_forall. intros p Hp. rewrite forallb_forall in Hall. apply Hall, Hp.
Qed.

Lemma Forall2_trimmed_of (pieces trimmed : list string) :
  Forall2 Spec.trimmed_of pieces trimmed <-> trimmed = map trim pieces.
Proof.
  split.
  - induction 1 as [|p t l l' Hpt _ IH]; [reflexivity|].
    cbn [map]. rewrite <- IH, <- (trimmed_of_trim p t Hpt). reflexivity.
  - intros ->. induction pieces as [|p l IH]; constructor; [apply trim_spec | exact IH].
Qed.

(** The stored tags are the trimmed non-empty pieces of the tag line, and
    nothing else is. *)
Lemma tags_of_iff (raw : string) (ts : list string) :
  Spec.tags_of raw ts
  <-> ts = List.filter Boolean (map trim (split_comma raw)).
Proof.
  assert (Hfilter : forall l,
    List.filter (fun t => match t with EmptyString => false | String _ _ => true end) l
    = List.filter Boolean l).
  { intros l. apply List.filter_ext. intros [|c t]; reflexivity. }
  unfold Spec.tags_of. split.
  - intros (pieces & trimmed & Hs & Ht & ->).
    apply split_of_iff in Hs. apply Forall2_trimmed_of in Ht. subst. apply Hfilter.
  - intros ->. exists (split_comma raw), (map trim (split_comma raw)).
    split; [apply split_of_iff; reflexivity|].
    split; [apply Forall2_trimmed_of; reflexivity|]. symmetry. apply Hfilter.
Qed.
End SpecFacts.

(** ** Arrays: [sort] *)

Module JsArrayFacts.
Import JsArray.

Section SortFacts.
Context {A : Type}.
Variable cmp : A -> A -> Z.

Lemma insert_sorted_perm (x : A) (l : list A) :
  Permutation (insert_sorted cmp x l) (x :: l).
Proof.
  induction l as [|y l IH]; simpl.
  - reflexivity.
  - destruct (cmp x y <=? 0).
    + reflexivity.
    + rewrite IH. apply perm_swap.
Qed.

(** Sorting rearranges, it neither drops nor adds an element. *)
Lemma sort_perm (l : list A) : Permutation (sort cmp l) l.
Proof.
  induction l as [|x l IH]; simpl.
  - reflexivity.
  - rewrite insert_sorted_perm. constructor. exact IH.
Qed.

Lemma sort_In (l : list A) (x : A) : In x (sort cmp l) <-> In x l.
Proof.
  split; apply Permutation_in; [|symmetry]; apply sort_perm.
Qed.
End SortFacts.

Section SortByKey.
Context {A : Type}.
Variable key : A -> Z.

Abbreviation by_key_desc := (fun a b : A => key b - key a).
Abbreviation desc := (fun a b : A => key b <= key a).

Lemma insert_sorted_HdRel (x a : A) (l : list A) :
  desc a x -> HdRel desc a l -> HdRel desc a (insert_sorted by_key_desc x l).
Proof.
  intros Hax Hl. destruct l as [|y l]; simpl.
  - constructor. exact Hax.
  - destruct (key y - key x <=? 0); constructor.
    + exact Hax.
    + inversion Hl; assumption.
Qed.

Lemma insert_sorted_Sorted (x : A) (l : list A) :
  Sorted desc l -> Sorted desc (insert_sorted by_key_desc x l).
Proof.
  induction l as [|y l IH]; intros Hs; simpl.
  - repeat constructor.
  - destruct (Z.leb_spec (key y - key x) 0) as [Hle|Hgt].
    + constructor; [exact Hs|]. constructor. lia.
    + inversion Hs as [|? ? Hs' Hhd]; subst. constructor.
      * apply IH. exact Hs'.
      * apply insert_sorted_HdRel; [|exact Hhd]. lia.
Qed.

(** The result of [sort((a, b) => key(b) - key(a))] is in descending
    order of [key]. *)
Lemma sort_desc (l : list A) : StronglySorted desc (sort by_key_desc l).
Proof.
  apply Sorted_StronglySorted.
  - intros a b c Hab Hbc. lia.
  - induction l as [|x l IH]; simpl.
    + constructor.
    + apply insert_sorted_Sorted. exact IH.
Qed.

(** The sort is stable: elements with the same key keep the order they
    had before the sort. *)
Lemma sort_stable (k : Z) (l : list A) :
  List.filter (fun a => key a =? k) (sort by_key_desc l)
  = List.filter (fun a => key a =? k) l.
Proof.
  assert (Hins : forall x l0,
    List.filter (fun a => key a =? k) (insert_sorted by_key_desc x l0)
    = List.filter (fun a => key a =? k) (x :: l0)).
  { intros x l0. induction l0 as [|y l0 IH]; [reflexivity|].
    cbn [insert_sorted].
    destruct (Z.leb_spec (key y - key x) 0) as [Hle|Hgt]; [reflexivity|].
    cbn [List.filter] in *. rewrite IH.
    destruct (Z.eqb_spec (key x) k) as [Hx|Hx]; [|reflexivity].
    destruct (Z.eqb_spec (key y) k) as [Hy|Hy]; [|reflexivity].
    lia. }
  induction l as [|x l IH]; [reflexivity|].
  cbn [sort]. rewrite Hins. cbn [List.filter]. rewrite IH. reflexivity.
Qed.
End SortByKey.
End JsArrayFacts.

(** ** Query *)

Section Query.
Import JsString.
Variables searchText exactTag : string.

Abbreviation q := (toLowerCase (trim searchText)).
Abbreviation tf := (toLowerCase (trim exactTag)).

Lemma filteredNotes_unfold (l : list Note) :
  filteredNotes searchText exactTag l
  = JsArray.sort (fun a b => updatedAt b - updatedAt a)
      (List.filter (filteredNotes_keep q tf) l).
Proof. reflexivity. Qed.

(** The callback decides the two predicates of the specification. *)
Lemma keep_matches (qn tfn : string) (n : Note) :
  filteredNotes_keep qn tfn n = true <-> QuerySpec.matches qn tfn n.
Proof.
  unfold filteredNotes_keep, QuerySpec.matches, QuerySpec.text_predicate,
    QuerySpec.tag_predicate, QuerySpec.contains, JsArray.some.
  cbv zeta.
  rewrite andb_true_iff, !orb_true_iff, !existsb_exists,
    JsStringFacts.is_empty_true, JsStringFacts.is_empty_true,
    !JsStringFacts.includes_spec, !SpecFacts.toLowerCase_spec.
  assert (Htag : (exists t, In t (tags n) /\ String.eqb (toLowerCase t) tfn = true)
                 <-> (exists t, In t (tags n) /\ Spec.lower_case t = tfn)).
  { split; intros [t [Ht H]]; exists t; (split; [exact Ht|]).
    - rewrite <- SpecFacts.toLowerCase_spec. apply String.eqb_eq. exact H.
    - rewrite <- SpecFacts.toLowerCase_spec in H. apply String.eqb_eq. exact H. }
  assert (Htxt : (exists t, In t (tags n) /\ includes (toLowerCase t) qn = true)
                 <-> (exists t, In t (tags n)
                        /\ exists pre post, Spec.lower_case t = pre ++ qn ++ post)).
  { split; intros [t [Ht H]]; exists t; (split; [exact Ht|]).
    - rewrite <- SpecFacts.toLowerCase_spec. apply JsStringFacts.includes_spec. exact H.
    - apply JsStringFacts.includes_spec. rewrite SpecFacts.toLowerCase_spec. exact H. }
  rewrite Htag, Htxt. tauto.
Qed.

(** C1. For every collection of notes and every [searchText] and [exactTag],
    with [qn] the trimmed, lower-cased [searchText] and [tfn] the trimmed,
    lower-cased [exactTag]: [filteredNotes] returns exactly the notes of the
    collection that satisfy both the text predicate (for [qn]) and the tag
    predicate (for [tfn]), each as often as it occurs in the collection, and
    returns them sorted by [updatedAt] descending. *)
Theorem filteredNotes_correct (l : list Note) (qn tfn : string) :
  Spec.normalized_of searchText qn ->
  Spec.normalized_of exactTag tfn ->
  (forall n, In n (filteredNotes searchText exactTag l)
             <-> In n l /\ QuerySpec.matches qn tfn n)
  /\ (forall n, QuerySpec.matches qn tfn n ->
        count_occ Note_eq_dec (filteredNotes searchText exactTag l) n
        = count_occ Note_eq_dec l n)
  /\ StronglySorted QuerySpec.newer_first (filteredNotes searchText exactTag l).
Proof.
  intros Hq Htf. apply SpecFacts.normalized_of_iff in Hq, Htf. subst qn tfn.
  rewrite filteredNotes_unfold. split; [|split].
  - intros n. rewrite JsArrayFacts.sort_In, filter_In, keep_matches. reflexivity.
  - intros n Hn. apply keep_matches in Hn.
    rewrite (proj1 (Permutation_count_occ Note_eq_dec _ _)
               (JsArrayFacts.sort_perm _ (List.filter (filteredNotes_keep q tf) l)) n).
    induction l as [|m l' IH]; [reflexivity|].
    cbn [List.filter]. destruct (filteredNotes_keep q tf m) eqn:Hm.
    + cbn [count_occ]. destruct (Note_eq_dec m n); rewrite IH; reflexivity.
    + cbn [count_occ]. destruct (Note_eq_dec m n) as [->|Hne]; [congruence|exact IH].
  - apply (JsArrayFacts.sort_desc updatedAt).
Qed.

(** Notes updated at the same instant keep the order of the collection. *)
Lemma filteredNotes_stable (k : Z) (l : list Note) :
  List.filter (fun n => updatedAt n =? k) (filteredNotes searchText exactTag l)
  = List.filter (fun n => updatedAt n =? k) (List.filter (filteredNotes_keep q tf) l).
Proof.
  rewrite filteredNotes_unfold. apply (JsArrayFacts.sort_stable updatedAt).
Qed.
End Query.

(** ** Handlers *)

Section HandlerFacts.
Variable JSON_stringify : json -> string.

Lemma or_else_normal_title (raw : string) :
  or_else (JsString.trim raw) "Untitled" = Spec.normal_title raw.
Proof. reflexivity. Qed.

(** The stored title is never empty. *)
Lemma normal_title_nonempty (raw : string) :
  JsString.is_empty (Spec.normal_title raw) = false.
Proof.
  unfold Spec.normal_title.
  destruct (JsString.is_empty (JsString.trim raw)) eqn:E; [reflexivity | exact E].
Qed.

(** No stored tag is empty. *)
Lemma normal_tags_nonempty (tagsRaw t : string) :
  In t (Spec.normal_tags tagsRaw) -> JsString.is_empty t = false.
Proof.
  unfold Spec.normal_tags. intros H. apply filter_In in H.
  destruct H as [_ H]. apply negb_true_iff in H. exact H.
Qed.

(** C2. For every form input and current time [now], [createNote] builds a
    note whose title is the trimmed form title, or "Untitled" when that is
    empty, whose content is the trimmed form content, whose tags are the
    pieces of the tag line between commas, trimmed, with the empty ones
    dropped, and whose [createdAt] and [updatedAt] are both [now]; the note
    is put in front of the collection and the whole new collection is
    written under the notes key. Trimming and splitting are those of
    [Spec.trimmed_of] and [Spec.split_of], which fix their result. *)
Theorem createNote_correct (now : Z) (random36 : string) (now_uid : Z) (st : App) :
  exists newNote : Note,
    notes_list (createNote JSON_stringify now random36 now_uid st)
    = newNote :: notes_list st
    /\ Spec.title_of (form_title (form st)) (title newNote)
    /\ Spec.trimmed_of (form_content (form st)) (content newNote)
    /\ Spec.tags_of (form_tags (form st)) (tags newNote)
    /\ createdAt newNote = now
    /\ updatedAt newNote = now
    /\ localStorage (createNote JSON_stringify now random36 now_uid st)
       = <[LS_NOTES_KEY :=
             JSON_stringify (JArr (map json_of_note (newNote :: notes_list st)))]>
           (localStorage st).
Proof.
  eexists. unfold createNote. cbn [notes_list localStorage].
  split; [reflexivity|]. cbn [title content tags createdAt updatedAt].
  split; [apply SpecFacts.title_of_iff; reflexivity|].
  split; [apply JsStringFacts.trim_spec|].
  split; [apply SpecFacts.tags_of_iff; reflexivity|].
  repeat split.
Qed.

(** C5. When a note is selected, [updateNote] gives every note of the
    collection that carries the selected id the normalized title, content
    and tags of the form (the normalization of create: [Spec.title_of],
    [Spec.trimmed_of], [Spec.tags_of]) and the current time as [updatedAt],
    and keeps its [id] and [createdAt]; every other note of the collection
    is unchanged, and so are the length and the order of the collection. *)
Theorem updateNote_correct (now : Z) (st : App) (sel : Note) :
  selectedNote st = Some sel ->
  Forall2 (Spec.updated_as (id sel) (form st) now)
    (notes_list st) (notes_list (updateNote JSON_stringify now st)).
Proof.
  intros Hsel. unfold updateNote. rewrite Hsel. cbn [notes_list].
  induction (notes_list st) as [|n l IH]; cbn [map]; constructor; [|exact IH].
  unfold Spec.updated_as.
  destruct (String.eqb_spec (id n) (id sel)) as [Heq|Hne].
  - split; [|congruence]. intros _. cbn [id createdAt title content tags updatedAt].
    split; [reflexivity|]. split; [reflexivity|].
    split; [apply SpecFacts.title_of_iff; reflexivity|].
    split; [apply JsStringFacts.trim_spec|].
    split; [apply SpecFacts.tags_of_iff; reflexivity | reflexivity].
  - split; [congruence|]. reflexivity.
Qed.

Lemma map_update_absent (target : string) (f : Note -> Note) (l : list Note) :
  ~ In target (Spec.ids l) ->
  map (fun n => if String.eqb (id n) target then f n else n) l = l.
Proof.
  induction l as [|n l IH]; intros Hnot; [reflexivity|].
  cbn [map]. cbn [Spec.ids map In] in Hnot.
  destruct (String.eqb_spec (id n) target) as [Heq|Hne]; [tauto|].
  f_equal. apply IH. unfold Spec.ids. tauto.
Qed.

Lemma filter_delete_absent (target : string) (l : list Note) :
  ~ In target (Spec.ids l) ->
  List.filter (fun n => negb (String.eqb (id n) target)) l = l.
Proof.
  induction l as [|n l IH]; intros Hnot; [reflexivity|].
  cbn [List.filter]. cbn [Spec.ids map In] in Hnot.
  destruct (String.eqb_spec (id n) target) as [Heq|Hne]; [tauto|].
  cbn [negb]. f_equal. apply IH. unfold Spec.ids. tauto.
Qed.

(** C6. When the id aimed at is the id of no note of the collection (no
    note is selected, or the selected note's id is not in the collection),
    [updateNote] and [deleteNote] each leave the in-memory collection as it
    is. Both are total functions without a throwing step: no error is
    surfaced. *)
Theorem update_delete_missing_id (now : Z) (st : App) :
  (forall sel, selectedNote st = Some sel -> ~ In (id sel) (Spec.ids (notes_list st))) ->
  notes_list (updateNote JSON_stringify now st) = notes_list st
  /\ notes_list (deleteNote JSON_stringify st) = notes_list st.
Proof.
  intros Hmiss. unfold updateNote, deleteNote.
  destruct (selectedNote st) as [sel|]; [|split; reflexivity].
  specialize (Hmiss sel eq_refl). cbn [notes_list]. split.
  - apply map_update_absent. exact Hmiss.
  - apply filter_delete_absent. exact Hmiss.
Qed.

Lemma length_filter_delete (target : string) (l : list Note) :
  List.NoDup (Spec.ids l) -> In target (Spec.ids l) ->
  S (length (List.filter (fun n => negb (String.eqb (id n) target)) l)) = length l.
Proof.
  induction l as [|n l IH]; intros Hnd Hin; [destruct Hin|].
  cbn [Spec.ids map] in Hnd, Hin. inversion Hnd as [|? ? Hnotin Hnd']; subst.
  cbn [List.filter]. destruct (String.eqb_spec (id n) target) as [Heq|Hne]; cbn [negb length].
  - subst target. rewrite filter_delete_absent by exact Hnotin. reflexivity.
  - f_equal. apply IH; [exact Hnd'|]. destruct Hin as [Hin|Hin]; [congruence | exact Hin].
Qed.

(** C7 (amended). When a note is selected, [deleteNote] removes from the
    collection every note that carries the selected id and no other note:
    the notes with another id stay, each as often as before; when the ids
    of the collection are pairwise distinct and the selected id is among
    them, exactly one note goes and the size decreases by exactly one. *)
Theorem deleteNote_correct (st : App) (sel : Note) :
  selectedNote st = Some sel ->
  (forall n, In n (notes_list (deleteNote JSON_stringify st))
             <-> In n (notes_list st) /\ id n <> id sel)
  /\ (forall n, id n <> id sel ->
        count_occ Note_eq_dec (notes_list (deleteNote JSON_stringify st)) n
        = count_occ Note_eq_dec (notes_list st) n)
  /\ (List.NoDup (Spec.ids (notes_list st)) -> In (id sel) (Spec.ids (notes_list st)) ->
      S (length (notes_list (deleteNote JSON_stringify st))) = length (notes_list st)).
Proof.
  intros Hsel. unfold deleteNote. rewrite Hsel. cbn [notes_list].
  split; [|split].
  - intros n. rewrite filter_In, negb_true_iff.
    destruct (String.eqb_spec (id n) (id sel)); intuition congruence.
  - intros n Hn. induction (notes_list st) as [|m l IH]; [reflexivity|].
    cbn [List.filter]. destruct (String.eqb_spec (id m) (id sel)) as [Heq|Hne]; cbn [negb count_occ].
    + destruct (Note_eq_dec m n) as [->|_]; [congruence | exact IH].
    + destruct (Note_eq_dec m n); rewrite IH; reflexivity.
  - apply length_filter_delete.
Qed.

(** C8 (amended). [createNote] gives the new note the id [uid()], made of
    the random draw and the clock alone; the collection is not consulted.
    The ids of the collection are pairwise distinct after the create
    exactly when they were before and the generated id is the id of no
    note already there. *)
Theorem createNote_id (now : Z) (random36 : string) (now_uid : Z) (st : App) :
  Spec.ids (notes_list (createNote JSON_stringify now random36 now_uid st))
  = uid random36 now_uid :: Spec.ids (notes_list st)
  /\ (List.NoDup (Spec.ids (notes_list (createNote JSON_stringify now random36 now_uid st)))
      <-> List.NoDup (Spec.ids (notes_list st))
          /\ ~ In (uid random36 now_uid) (Spec.ids (notes_list st))).
Proof.
  unfold createNote. cbn [notes_list Spec.ids map id]. split; [reflexivity|].
  fold (Spec.ids (notes_list st)). split.
  - intros H. inversion H; subst. tauto.
  - intros [H1 H2]. constructor; assumption.
Qed.
End HandlerFacts.

(** ** Persistence *)

Section PersistenceFacts.
Variable JSON_parse : string -> completion json.
Variable JSON_stringify : json -> string.

(** The three ways [loadNotes] can run. *)
Lemma loadNotes_cases (ls : gmap string string) :
  match ls !! LS_NOTES_KEY with
  | None => loadNotes JSON_parse ls = Normal []
  | Some raw =>
      if JsString.is_empty raw then loadNotes JSON_parse ls = Normal []
      else match JSON_parse raw with
           | Throw _ => loadNotes JSON_parse ls = Normal []
           | Normal (JArr items) => loadNotes JSON_parse ls = Normal items
           | Normal _ => loadNotes JSON_parse ls = Normal []
           end
  end.
Proof.
  unfold loadNotes, LocalStorage.getItem.
  destruct (ls !! LS_NOTES_KEY) as [raw|]; cbn; [|reflexivity].
  destruct (JsString.is_empty raw); [reflexivity|].
  destruct (JSON_parse raw) as [[]|]; reflexivity.
Qed.

(** C3. For every content of [localStorage], [loadNotes] completes
    normally (it never raises), and it returns the empty collection when
    nothing is stored under the notes key, when the stored payload fails to
    parse, and when it parses to a value that is not an array. *)
Theorem loadNotes_never_raises (ls : gmap string string) :
  (exists notes, loadNotes JSON_parse ls = Normal notes)
  /\ (ls !! LS_NOTES_KEY = None -> loadNotes JSON_parse ls = Normal [])
  /\ (forall raw e, ls !! LS_NOTES_KEY = Some raw -> JSON_parse raw = Throw e ->
        loadNotes JSON_parse ls = Normal [])
  /\ (forall raw v, ls !! LS_NOTES_KEY = Some raw -> JSON_parse raw = Normal v ->
        isArray v = false -> loadNotes JSON_parse ls = Normal []).
Proof.
  pose proof (loadNotes_cases ls) as H.
  destruct (ls !! LS_NOTES_KEY) as [raw|].
  - destruct (JsString.is_empty raw).
    + split; [eauto|]. split; [discriminate|]. split; intros; exact H.
    + destruct (JSON_parse raw) as [v|e] eqn:Hp.
      * split; [destruct v; eauto|]. split; [discriminate|]. split.
        -- intros raw' e' [= <-] Hp'. congruence.
        -- intros raw' v' [= <-] Hp' Harr. rewrite Hp in Hp'. injection Hp' as ->.
           destruct v'; try exact H. discriminate.
      * split; [eauto|]. split; [discriminate|]. split.
        -- intros; exact H.
        -- intros; exact H.
  - split; [eauto|]. repeat split; intros; exact H.
Qed.

(** C10. For every stored payload that parses to an array, [loadNotes]
    returns exactly the parsed array: no element is checked, changed or
    dropped, whatever its fields hold. The parser is any one that rejects
    the empty text, as [JSON.parse] does. *)
Theorem loadNotes_returns_parsed_array (ls : gmap string string) (raw : string)
    (items : list json) :
  JSON_parse EmptyString = Throw SyntaxError ->
  ls !! LS_NOTES_KEY = Some raw ->
  JSON_parse raw = Normal (JArr items) ->
  loadNotes JSON_parse ls = Normal items.
Proof.
  intros Hempty Hraw Hparse. pose proof (loadNotes_cases ls) as H.
  rewrite Hraw in H. destruct raw as [|c raw]; [congruence|].
  cbn [JsString.is_empty] in H. rewrite Hparse in H. exact H.
Qed.

(** Whatever the platform's codec is: when [JSON.parse] reads back what
    [JSON.stringify] printed for a collection, and rejects the empty text,
    [loadNotes] after [saveNotes] returns the objects of the collection. *)
Lemma load_after_save (notes : list Note) (ls : gmap string string) :
  JSON_parse EmptyString = Throw SyntaxError ->
  JSON_parse (JSON_stringify (JArr (map json_of_note notes)))
  = Normal (JArr (map json_of_note notes)) ->
  loadNotes JSON_parse (saveNotes JSON_stringify notes ls)
  = Normal (map json_of_note notes).
Proof.
  intros Hempty Hround. pose proof (loadNotes_cases (saveNotes JSON_stringify notes ls)) as H.
  unfold saveNotes, LocalStorage.setItem in *. rewrite lookup_insert_eq in H.
  destruct (JSON_stringify (JArr (map json_of_note notes))) as [|c raw] eqn:Hs; [congruence|].
  cbn [JsString.is_empty] in H. rewrite Hround in H. exact H.
Qed.

(** Two notes with the same runtime object agree on every field. *)
Lemma json_of_note_inj (a b : Note) : json_of_note a = json_of_note b -> a = b.
Proof.
  destruct a, b. unfold json_of_note. cbn. intros H.
  injection H as H1 H2 H3 H4 H5 H6.
  assert (Htags : forall l1 l2 : list string, map JStr l1 = map JStr l2 -> l1 = l2).
  { induction l1 as [|x l1 IH]; destruct l2 as [|y l2]; cbn; try congruence.
    intros [= -> Hl]. f_equal. apply IH. exact Hl. }
  apply Htags in H4. congruence.
Qed.

Lemma map_json_of_note_inj (l1 l2 : list Note) :
  map json_of_note l1 = map json_of_note l2 -> l1 = l2.
Proof.
  revert l2. induction l1 as [|x l1 IH]; destruct l2 as [|y l2]; cbn [map];
    try congruence.
  intros H. f_equal; [apply json_of_note_inj | apply IH]; congruence.
Qed.

(** The ways [loadUser] can run. *)
Lemma loadUser_cases (ls : gmap string string) :
  match ls !! LS_USER_KEY with
  | None => loadUser JSON_parse ls = Normal JNull
  | Some raw =>
      if JsString.is_empty raw then loadUser JSON_parse ls = Normal JNull
      else match JSON_parse raw with
           | Throw _ => loadUser JSON_parse ls = Normal JNull
           | Normal v => loadUser JSON_parse ls = Normal v
           end
  end.
Proof.
  unfold loadUser, LocalStorage.getItem.
  destruct (ls !! LS_USER_KEY) as [raw|]; cbn; [|reflexivity].
  destruct (JsString.is_empty raw); [reflexivity|].
  destruct (JSON_parse raw); reflexivity.
Qed.

(** What [loadUser] does, for every content of [localStorage]: it
    completes normally (no error reaches the caller); it returns [null]
    when nothing or the empty text is stored under the session key and when
    the stored payload fails to parse; a payload that parses is returned as
    parsed, whatever its shape. Unlike [loadNotes] and the view-mode
    loader, it does not check the shape of what it parsed. *)
Theorem loadUser_never_raises (ls : gmap string string) :
  (exists u, loadUser JSON_parse ls = Normal u)
  /\ (ls !! LS_USER_KEY = None -> loadUser JSON_parse ls = Normal JNull)
  /\ (ls !! LS_USER_KEY = Some EmptyString -> loadUser JSON_parse ls = Normal JNull)
  /\ (forall raw e, ls !! LS_USER_KEY = Some raw -> JSON_parse raw = Throw e ->
        loadUser JSON_parse ls = Normal JNull)
  /\ (forall raw v, ls !! LS_USER_KEY = Some raw -> raw <> EmptyString ->
        JSON_parse raw = Normal v -> loadUser JSON_parse ls = Normal v).
Proof.
  pose proof (loadUser_cases ls) as H.
  destruct (ls !! LS_USER_KEY) as [raw|].
  - destruct raw as [|c raw]; cbn [JsString.is_empty] in H.
    + split; [eauto|]. split; [discriminate|]. split; [intros; exact H|].
      split; [intros; exact H|]. intros raw' v' [= <-] Hne. congruence.
    + destruct (JSON_parse (String c raw)) as [v|e] eqn:Hp.
      * split; [eauto|]. split; [discriminate|]. split; [discriminate|]. split.
        -- intros raw' e' [= <-] Hp'. congruence.
        -- intros raw' v' [= <-] _ Hp'. congruence.
      * split; [eauto|]. split; [discriminate|]. split; [discriminate|]. split.
        -- intros; exact H.
        -- intros raw' v' [= <-] _ Hp'. congruence.
  - split; [eauto|]. repeat split; intros; try exact H; discriminate.
Qed.
End PersistenceFacts.

(** ** The reference codec reads back what it prints *)

Module RefJSONFacts.
Import RefJSON.
Import JsStringFacts.

(** The text of one member of an object. *)
Abbreviation member_text :=
  (fun kv : string * json => quote (fst kv) ++ ":" ++ stringify (snd kv)).

(** Induction on JSON values, with the hypothesis for every element of an
    array and every member of an object. *)
Lemma json_induction (P : json -> Prop) :
  P JNull ->
  (forall b, P (JBool b)) ->
  (forall n, P (JNum n)) ->
  (forall s, P (JStr s)) ->
  (forall items, Forall P items -> P (JArr items)) ->
  (forall members, Forall (fun kv => P (snd kv)) members -> P (JObj members)) ->
  forall v, P v.
Proof.
  intros Hnull Hbool Hnum Hstr Harr Hobj.
  fix IH 1. intros [| b | n | s | items | members].
  - exact Hnull.
  - apply Hbool.
  - apply Hnum.
  - apply Hstr.
  - apply Harr. revert items. fix IHl 1. intros [|x l].
    + constructor.
    + constructor; [apply IH | apply IHl].
  - apply Hobj. revert members. fix IHl 1. intros [|[k x] l].
    + constructor.
    + constructor; [apply IH | apply IHl].
Qed.

Lemma length_append (a b : string) :
  String.length (a ++ b) = (String.length a + String.length b)%nat.
Proof.
  induction a as [|c a IH]; [reflexivity|].
  rewrite append_cons. cbn [String.length]. rewrite IH. reflexivity.
Qed.

(** *** Numbers *)

(** A number character starts no other kind of token. *)
Lemma number_char_head (c : ascii) :
  is_number_char c = true ->
  is_json_ws c = false
  /\ Ascii.eqb c "n" = false /\ Ascii.eqb c "t" = false /\ Ascii.eqb c "f" = false
  /\ Ascii.eqb c dquote = false /\ Ascii.eqb c "[" = false /\ Ascii.eqb c "{" = false
  /\ Ascii.eqb c "]" = false /\ Ascii.eqb c "}" = false.
Proof.
  destruct c as [[] [] [] [] [] [] [] []]; vm_compute; intros H;
    try discriminate H; repeat split.
Qed.

Lemma uint_chars (d : Decimal.uint) :
  Forall (fun c => is_number_char c = true)
    (list_ascii_of_string (NilEmpty.string_of_uint d)).
Proof.
  induction d; cbn [NilEmpty.string_of_uint list_ascii_of_string];
    constructor; solve [reflexivity | assumption].
Qed.

Lemma string_of_Z_chars (z : Z) :
  Forall (fun c => is_number_char c = true) (list_ascii_of_string (string_of_Z z)).
Proof.
  unfold string_of_Z, NilZero.string_of_int, NilZero.string_of_uint.
  destruct (Z.to_int z) as [d|d].
  - destruct d; try apply (uint_chars (_ _)). repeat constructor.
  - cbn [list_ascii_of_string]. constructor; [reflexivity|].
    destruct d; try apply (uint_chars (_ _)). repeat constructor.
Qed.

Lemma string_of_Z_nonempty (z : Z) : string_of_Z z <> EmptyString.
Proof.
  unfold string_of_Z, NilZero.string_of_int, NilZero.string_of_uint.
  destruct (Z.to_int z) as [d|d]; destruct d; discriminate.
Qed.

(** The number scanner stops where the number characters stop. *)
Lemma span_number_append (tok rest : string) :
  Forall (fun c => is_number_char c = true) (list_ascii_of_string tok) ->
  (forall c r, rest = String c r -> is_number_char c = false) ->
  span_number (tok ++ rest) = (tok, rest).
Proof.
  intros Htok Hrest. induction tok as [|c tok IH].
  - rewrite append_nil_l. destruct rest as [|c r]; [reflexivity|].
    cbn [span_number]. rewrite (Hrest c r eq_refl). reflexivity.
  - rewrite append_cons. cbn [list_ascii_of_string] in Htok.
    inversion Htok as [|? ? Hc Htok']; subst.
    cbn [span_number]. rewrite Hc, (IH Htok'). reflexivity.
Qed.

Lemma to_int_normal (z : Z) : Z.to_int z <> Decimal.Pos Decimal.Nil
                              /\ Z.to_int z <> Decimal.Neg Decimal.Nil.
Proof.
  pose proof (DecimalZ.to_of (Z.to_int z)) as H.
  rewrite DecimalZ.of_to in H.
  split; intros E; rewrite E in H; discriminate H.
Qed.

(** The decimal text of an integer is read back as that integer. *)
Lemma Z_of_token_string_of_Z (z : Z) : Z_of_token (string_of_Z z) = Some z.
Proof.
  unfold Z_of_token, string_of_Z.
  destruct (to_int_normal z) as [H1 H2].
  rewrite (NilZero.isi _ H1 H2). cbv zeta.
  rewrite DecimalZ.of_to, String.eqb_refl. reflexivity.
Qed.

(** *** Strings *)

Lemma parse_escape_char (c : ascii) (tail : string) :
  parse_string_body (escape_char c ++ tail)
  = cons_char (Some c) (parse_string_body tail).
Proof.
  destruct c as [[] [] [] [] [] [] [] []]; reflexivity.
Qed.

(** A printed string is read back, up to its closing quotation mark. *)
Lemma parse_string_body_escape (s rest : string) :
  parse_string_body (escape s ++ String dquote rest) = Some (s, rest).
Proof.
  induction s as [|c s IH].
  - reflexivity.
  - cbn [escape]. rewrite append_assoc, parse_escape_char, IH. reflexivity.
Qed.
(** *** Values *)

Lemma parse_value_S (fuel : nat) (s : string) :
  parse_value (S fuel) s
  = match skip_ws s with
    | EmptyString => None
    | String c r =>
        if Ascii.eqb c "n" then expect "ull" r JNull
        else if Ascii.eqb c "t" then expect "rue" r (JBool true)
        else if Ascii.eqb c "f" then expect "alse" r (JBool false)
        else if Ascii.eqb c dquote then
          match parse_string_body r with
          | Some (str, r') => Some (JStr str, r')
          | None => None
          end
        else if Ascii.eqb c "[" then
          match skip_ws r with
          | String c' r' =>
              if Ascii.eqb c' "]" then Some (JArr [], r')
              else match parse_elements (parse_value fuel) fuel r with
                   | Some (vs, r'') => Some (JArr vs, r'')
                   | None => None
                   end
          | EmptyString => None
          end
        else if Ascii.eqb c "{" then
          match skip_ws r with
          | String c' r' =>
              if Ascii.eqb c' "}" then Some (JObj [], r')
              else match parse_members (parse_value fuel) fuel r with
                   | Some (kvs, r'') => Some (JObj kvs, r'')
                   | None => None
                   end
          | EmptyString => None
          end
        else
          let (tok, rest) := span_number (String c r) in
          match Z_of_token tok with
          | Some z => Some (JNum z, rest)
          | None => None
          end
    end.
Proof. reflexivity. Qed.

(** A printed value starts with a character that is neither white space
    nor a closing bracket. *)
Lemma stringify_head (v : json) :
  exists c r, stringify v = String c r
    /\ is_json_ws c = false /\ Ascii.eqb c "]" = false.
Proof.
  destruct v as [| [] | z | s | items | members];
    try (eexists _, _; repeat split; reflexivity).
  cbn [stringify]. pose proof (string_of_Z_nonempty z) as Hne.
  pose proof (string_of_Z_chars z) as Hch.
  destruct (string_of_Z z) as [|c r]; [congruence|].
  cbn [list_ascii_of_string] in Hch. inversion Hch as [|? ? Hc _]; subst.
  apply number_char_head in Hc. exists c, r. tauto.
Qed.

Lemma stringify_length_pos (v : json) : (1 <= String.length (stringify v))%nat.
Proof.
  destruct (stringify_head v) as [c [r [H _]]]. rewrite H. cbn. lia.
Qed.

Lemma length_join_In (sep s : string) (l : list string) :
  In s l -> (String.length s <= String.length (JsString.join sep l))%nat.
Proof.
  induction l as [|p l IH]; intros Hin; [destruct Hin|].
  destruct l as [|p' l'].
  - destruct Hin as [->|[]]. cbn. lia.
  - change (JsString.join sep (p :: p' :: l'))
      with (p ++ sep ++ JsString.join sep (p' :: l')).
    rewrite !length_append. destruct Hin as [->|Hin]; [lia|].
    specialize (IH Hin). lia.
Qed.

Lemma length_join_count (sep : string) (l : list string) :
  Forall (fun s => (1 <= String.length s)%nat) l ->
  (length l <= String.length (JsString.join sep l))%nat.
Proof.
  induction l as [|p l IH]; intros Hl; [cbn; lia|].
  inversion Hl as [|? ? Hp Hl']; subst. specialize (IH Hl').
  destruct l as [|p' l'].
  - cbn. cbn in Hp. lia.
  - change (JsString.join sep (p :: p' :: l'))
      with (p ++ sep ++ JsString.join sep (p' :: l')).
    rewrite !length_append. cbn [length] in *. lia.
Qed.

Section Sequences.
Variable pv : string -> option (json * string).

(** What the main induction gives for one value: [pv] reads it back in
    front of anything that does not continue a number. *)
Abbreviation reads v :=
  (forall rest, (forall c r, rest = String c r -> is_number_char c = false) ->
                pv (stringify v ++ rest) = Some (v, rest)).

Lemma parse_elements_join (items : list json) :
  items <> [] ->
  Forall (fun v => reads v) items ->
  forall fuel rest, (length items <= fuel)%nat ->
    parse_elements pv fuel
      (JsString.join "," (map stringify items) ++ String "]" rest)
    = Some (items, rest).
Proof.
  induction items as [|v items IH]; intros Hne Hall fuel rest Hfuel; [congruence|].
  inversion Hall as [|? ? Hv Hall']; subst.
  destruct fuel as [|fuel]; [cbn in Hfuel; lia|].
  cbn [parse_elements]. destruct items as [|v' items'].
  - cbn [map JsString.join]. rewrite Hv by (intros c r [= <- _]; reflexivity).
    reflexivity.
  - change (JsString.join "," (map stringify (v :: v' :: items')))
      with (stringify v ++ "," ++ JsString.join "," (map stringify (v' :: items'))).
    rewrite !append_assoc.
    rewrite Hv by (intros c r [= <- _]; reflexivity).
    rewrite append_cons, append_nil_l. cbn [skip_ws]. cbv beta iota.
    change (is_json_ws ",") with false. cbv iota.
    change (Ascii.eqb "," ",") with true. cbv iota.
    rewrite IH; [reflexivity | discriminate | exact Hall' | cbn in *; lia].
Qed.

Lemma parse_member_text (k : string) (v : json) (rest : string) :
  reads v ->
  (forall c r, rest = String c r -> is_number_char c = false) ->
  parse_member pv (quote k ++ ":" ++ stringify v ++ rest) = Some ((k, v), rest).
Proof.
  intros Hv Hrest. unfold parse_member, quote.
  rewrite append_cons. cbn [skip_ws]. change (is_json_ws dquote) with false. cbv iota.
  change (Ascii.eqb dquote dquote) with true. cbv iota.
  rewrite append_assoc, append_cons, append_nil_l, parse_string_body_escape.
  rewrite append_cons, append_nil_l. cbn [skip_ws].
  change (is_json_ws ":") with false. cbv iota.
  change (Ascii.eqb ":" ":") with true. cbv iota.
  rewrite (Hv rest Hrest). reflexivity.
Qed.

Lemma parse_members_join (members : list (string * json)) :
  members <> [] ->
  Forall (fun kv => reads (snd kv)) members ->
  forall fuel rest, (length members <= fuel)%nat ->
    parse_members pv fuel
      (JsString.join "," (map member_text members) ++ String "}" rest)
    = Some (members, rest).
Proof.
  induction members as [|[k v] members IH]; intros Hne Hall fuel rest Hfuel; [congruence|].
  inversion Hall as [|? ? Hv Hall']; subst. cbn [snd] in Hv.
  destruct fuel as [|fuel]; [cbn in Hfuel; lia|].
  cbn [parse_members]. destruct members as [|kv' members'].
  - cbn [map JsString.join fst snd]. rewrite !append_assoc.
    rewrite parse_member_text;
      [reflexivity | exact Hv | intros c r [= <- _]; reflexivity].
  - change (JsString.join "," (map member_text ((k, v) :: kv' :: members')))
      with ((quote k ++ ":" ++ stringify v) ++ ","
              ++ JsString.join "," (map member_text (kv' :: members'))).
    rewrite !append_assoc.
    rewrite parse_member_text; [| exact Hv | intros c r [= <- _]; reflexivity].
    rewrite append_cons, append_nil_l.
    cbn [skip_ws]. change (is_json_ws ",") with false. cbv iota.
    change (Ascii.eqb "," ",") with true. cbv iota.
    rewrite IH; [reflexivity | discriminate | exact Hall' | cbn in *; lia].
Qed.
End Sequences.
(** With fuel beyond the length of the printed text, [parse_value] reads a
    printed value back and stops right after it. *)
Lemma parse_value_stringify (v : json) :
  forall fuel rest,
    (String.length (stringify v) < fuel)%nat ->
    (forall c r, rest = String c r -> is_number_char c = false) ->
    parse_value fuel (stringify v ++ rest) = Some (v, rest).
Proof.
  induction v as [| b | z | s | items IH | members IH] using json_induction;
    intros fuel rest Hfuel Hrest;
    (destruct fuel as [|fuel]; [lia|]); rewrite parse_value_S.
  - reflexivity.
  - destruct b; reflexivity.
  - cbn [stringify].
    pose proof (string_of_Z_nonempty z) as Hne.
    pose proof (string_of_Z_chars z) as Hch.
    pose proof (Z_of_token_string_of_Z z) as Htok.
    pose proof (span_number_append (string_of_Z z) rest Hch Hrest) as Hspan.
    destruct (string_of_Z z) as [|c r]; [congruence|].
    cbn [list_ascii_of_string] in Hch. inversion Hch as [|? ? Hc _]; subst.
    destruct (number_char_head c Hc) as (Hws & Hn & Ht & Hf & Hq & Hb & Ho & _).
    rewrite append_cons in *. cbn [skip_ws]. rewrite Hws, Hn, Ht, Hf, Hq, Hb, Ho.
    rewrite Hspan, Htok. reflexivity.
  - cbn [stringify]. unfold quote. rewrite append_cons, append_assoc.
    rewrite append_cons, append_nil_l. cbn [skip_ws].
    change (is_json_ws dquote) with false. cbv iota.
    change (Ascii.eqb dquote "n") with false.
    change (Ascii.eqb dquote "t") with false.
    change (Ascii.eqb dquote "f") with false.
    change (Ascii.eqb dquote dquote) with true. cbv iota.
    rewrite parse_string_body_escape. reflexivity.
  - destruct items as [|v items]; [reflexivity|].
    cbn [stringify] in *. rewrite append_cons, append_nil_l in *.
    rewrite append_cons, append_assoc, append_cons, append_nil_l.
    cbn [skip_ws]. change (is_json_ws "[") with false. cbv iota.
    change (Ascii.eqb "[" "n") with false.
    change (Ascii.eqb "[" "t") with false.
    change (Ascii.eqb "[" "f") with false.
    change (Ascii.eqb "[" dquote) with false.
    change (Ascii.eqb "[" "[") with true. cbv iota.
    cbn [String.length] in Hfuel. rewrite length_append in Hfuel.
    assert (Hhead : exists c r,
      JsString.join "," (map stringify (v :: items)) ++ String "]" rest = String c r
      /\ is_json_ws c = false /\ Ascii.eqb c "]" = false).
    { destruct (stringify_head v) as (c & r & Hv & Hws & Hb).
      destruct items as [|v' items'].
      - cbn [map JsString.join]. rewrite Hv, append_cons. eauto.
      - change (JsString.join "," (map stringify (v :: v' :: items')))
          with (stringify v ++ "," ++ JsString.join "," (map stringify (v' :: items'))).
        rewrite Hv, !append_cons. eauto. }
    destruct Hhead as (c & r & Htext & Hws & Hb).
    rewrite parse_elements_join.
    + rewrite Htext. cbn [skip_ws]. rewrite Hws, Hb. reflexivity.
    + discriminate.
    + apply List.Forall_forall. intros x Hx rest' Hrest'.
      rewrite List.Forall_forall in IH. apply (IH x Hx); [|exact Hrest'].
      pose proof (length_join_In "," (stringify x) (map stringify (v :: items))
                    (in_map stringify _ _ Hx)). lia.
    + pose proof (length_join_count "," (map stringify (v :: items))) as Hcount.
      rewrite length_map in Hcount. 
      assert (Forall (fun s => (1 <= String.length s)%nat) (map stringify (v :: items))).
      { apply List.Forall_forall. intros s Hs. apply in_map_iff in Hs.
        destruct Hs as [x [<- _]]. apply stringify_length_pos. }
      specialize (Hcount H). lia.
  - destruct members as [|kv members]; [reflexivity|].
    cbn [stringify] in *. rewrite append_cons, append_nil_l in *.
    rewrite append_cons, append_assoc, append_cons, append_nil_l.
    cbn [skip_ws]. change (is_json_ws "{") with false. cbv iota.
    change (Ascii.eqb "{" "n") with false.
    change (Ascii.eqb "{" "t") with false.
    change (Ascii.eqb "{" "f") with false.
    change (Ascii.eqb "{" dquote) with false.
    change (Ascii.eqb "{" "[") with false.
    change (Ascii.eqb "{" "{") with true. cbv iota.
    cbn [String.length] in Hfuel. rewrite length_append in Hfuel.
    assert (Hhead : exists r,
      JsString.join "," (map member_text (kv :: members)) ++ String "}" rest
      = String dquote r).
    { destruct members as [|kv' members'].
      - cbn [map JsString.join]. unfold quote. rewrite !append_cons. eauto.
      - change (JsString.join "," (map member_text (kv :: kv' :: members')))
          with (member_text kv ++ ","
                  ++ JsString.join "," (map member_text (kv' :: members'))).
        cbv beta. unfold quote. rewrite !append_cons. eauto. }
    destruct Hhead as (r & Htext).
    rewrite parse_members_join.
    + rewrite Htext. cbn [skip_ws]. change (is_json_ws dquote) with false. cbv iota.
      change (Ascii.eqb dquote "}") with false. reflexivity.
    + discriminate.
    + apply List.Forall_forall. intros x Hx rest' Hrest'.
      rewrite List.Forall_forall in IH. apply (IH x Hx); [|exact Hrest'].
      pose proof (length_join_In "," (member_text x) (map member_text (kv :: members))
                    (in_map member_text _ _ Hx)) as Hlen.
      cbv beta in Hlen. rewrite !length_append in Hlen. lia.
    + pose proof (length_join_count "," (map member_text (kv :: members))) as Hcount.
      rewrite length_map in Hcount.
      assert (Forall (fun s => (1 <= String.length s)%nat)
                (map member_text (kv :: members))).
      { apply List.Forall_forall. intros s Hs. apply in_map_iff in Hs.
        destruct Hs as [x [<- _]]. unfold quote. rewrite append_cons.
        cbn [String.length]. lia. }
      specialize (Hcount H). lia.
Qed.

(** [parse] inverts [stringify]. *)
Theorem parse_stringify (v : json) : parse (stringify v) = Normal v.
Proof.
  unfold parse.
  pose proof (parse_value_stringify v (S (String.length (stringify v))) EmptyString) as H.
  replace (stringify v ++ EmptyString) with (stringify v) in H.
  - rewrite H; [reflexivity | lia | discriminate].
  - generalize (stringify v). intros s. induction s as [|c s IH]; [reflexivity|].
    rewrite append_cons. f_equal. exact IH.
Qed.

(** The empty text is no JSON. *)
Lemma parse_empty : parse EmptyString = Throw SyntaxError.
Proof. reflexivity. Qed.
End RefJSONFacts.

(** ** The repository on the reference platform *)

Section ReferencePlatform.
Abbreviation load := (loadNotes RefJSON.parse).
Abbreviation save := (saveNotes RefJSON.stringify).

Lemma load_save_reference (notes : list Note) (ls : gmap string string) :
  load (save notes ls) = Normal (map json_of_note notes).
Proof.
  apply load_after_save.
  - apply RefJSONFacts.parse_empty.
  - apply RefJSONFacts.parse_stringify.
Qed.

(** C4. For every collection of notes and every content of the store,
    [saveNotes] followed by [loadNotes] yields the collection itself: the
    objects of the same notes, in the same order, and those objects
    determine each note field for field. The codec is the reference one,
    which is proved to read back all it prints. *)
Theorem save_then_load (notes : list Note) (ls : gmap string string) :
  exists loaded,
    loadNotes RefJSON.parse (saveNotes RefJSON.stringify notes ls) = Normal loaded
    /\ loaded = map json_of_note notes
    /\ (forall notes', loaded = map json_of_note notes' -> notes' = notes).
Proof.
  exists (map json_of_note notes).
  split; [apply load_save_reference|]. split; [reflexivity|].
  intros notes' H. symmetry. apply map_json_of_note_inj. exact H.
Qed.

(** What [saveNotes] stores for the two sample notes. *)
Example saved_text :
  save [Sample.tokyo; Sample.budget] ∅ !! LS_NOTES_KEY
  = Some (RefJSON.text
      "[{'id':'k3x9a1m30l7y80','title':'Trip to Tokyo','content':'Flights and hotel','tags':['travel','japan'],'createdAt':1000,'updatedAt':3000},{'id':'p07qzbm30l7y9c','title':'Budget','content':'Q3 numbers','tags':['work'],'createdAt':2000,'updatedAt':4000}]").
Proof. vm_compute. reflexivity. Qed.

(** After each of the three handlers the stored collection is the
    in-memory collection, in full. *)
Corollary handlers_persist_in_full (now now_uid : Z) (random36 : string) (st : App) :
  let created := createNote RefJSON.stringify now random36 now_uid st in
  let updated := updateNote RefJSON.stringify now st in
  let deleted := deleteNote RefJSON.stringify st in
  load (localStorage created) = Normal (map json_of_note (notes_list created))
  /\ (selectedNote st <> None ->
      load (localStorage updated) = Normal (map json_of_note (notes_list updated))
      /\ load (localStorage deleted) = Normal (map json_of_note (notes_list deleted))).
Proof.
  cbv zeta. split.
  - unfold createNote. cbn [localStorage notes_list]. apply load_save_reference.
  - unfold updateNote, deleteNote. destruct (selectedNote st); [|congruence].
    intros _. cbn [localStorage notes_list]. split; apply load_save_reference.
Qed.

(** The session store on the reference platform: a saved identity is
    loaded back, and after a logout nothing is. *)
Corollary loadUser_saveUser_reference (u : User) (ls : gmap string string) :
  loadUser RefJSON.parse (saveUser RefJSON.stringify (Some u) ls)
  = Normal (json_of_user u)
  /\ loadUser RefJSON.parse (saveUser RefJSON.stringify None ls) = Normal JNull.
Proof.
  split.
  - pose proof (loadUser_cases RefJSON.parse
                  (saveUser RefJSON.stringify (Some u) ls)) as H.
    unfold saveUser, LocalStorage.setItem in *. rewrite lookup_insert_eq in H.
    rewrite RefJSONFacts.parse_stringify in H.
    destruct (RefJSONFacts.stringify_head (json_of_user u)) as (c & r & Hs & _).
    rewrite Hs in *. exact H.
  - pose proof (loadUser_cases RefJSON.parse (saveUser RefJSON.stringify None ls)) as H.
    unfold saveUser, LocalStorage.removeItem in *. rewrite lookup_delete_eq in H.
    exact H.
Qed.

(** The query examples of the specification. *)
Example query_examples :
  let notes := [Sample.tokyo; Sample.budget] in
  filteredNotes "tokyo" EmptyString notes = [Sample.tokyo]
  /\ filteredNotes EmptyString "work" notes = [Sample.budget]
  /\ filteredNotes "budget" "travel" notes = []
  /\ filteredNotes EmptyString EmptyString notes = [Sample.budget; Sample.tokyo]
  /\ filteredNotes " TOKYO " " Travel" notes = [Sample.tokyo]
  /\ filteredNotes "apa" EmptyString notes = [Sample.tokyo]
  /\ filteredNotes EmptyString "trav" notes = [].
Proof. vm_compute. repeat split; reflexivity. Qed.

Example create_example :
  notes_list (createNote RefJSON.stringify 7000 "0.4fzyo82mvyr" 7001
                (Sample.page [Sample.budget] None Sample.edit_form))
  = [mkNote "4fzyo82mvyr5eh" "Trip to Osaka" "Shinkansen" ["travel"; "Japan"; "rail"]
       7000 7000;
     Sample.budget].
Proof. vm_compute. reflexivity. Qed.
End ReferencePlatform.

(** ** The theorems on sample data, with the reference codec *)

Lemma loadNotes_never_raises_witness :
  loadNotes RefJSON.parse ∅ = Normal []
  /\ loadNotes RefJSON.parse {[LS_NOTES_KEY := "not json"]} = Normal []
  /\ loadNotes RefJSON.parse {[LS_NOTES_KEY := RefJSON.text "{'notes':[]}"]} = Normal [].
Proof.
  split; [|split].
  - apply (loadNotes_never_raises RefJSON.parse ∅). reflexivity.
  - apply (proj1 (proj2 (proj2 (loadNotes_never_raises RefJSON.parse _)))
             "not json" SyntaxError); vm_compute; reflexivity.
  - apply (proj2 (proj2 (proj2 (loadNotes_never_raises RefJSON.parse _)))
             (RefJSON.text "{'notes':[]}") (JObj [("notes", JArr [])]));
      vm_compute; reflexivity.
Defined.

Lemma loadNotes_returns_parsed_array_witness :
  loadNotes RefJSON.parse {[LS_NOTES_KEY := Sample.unruly_payload]}
  = Normal (map json_of_note [Sample.blank; Sample.blank_twin])
  /\ JsString.trim (title Sample.blank) = EmptyString
  /\ In EmptyString (tags Sample.blank)
  /\ id Sample.blank = id Sample.blank_twin
  /\ updatedAt Sample.blank < createdAt Sample.blank.
Proof.
  split.
  - apply (loadNotes_returns_parsed_array RefJSON.parse
             {[LS_NOTES_KEY := Sample.unruly_payload]} Sample.unruly_payload);
      vm_compute; reflexivity.
  - repeat split; [left; reflexivity].
Defined.

Lemma updateNote_correct_witness :
  Forall2 (Spec.updated_as (id Sample.tokyo) Sample.edit_form 9000)
    [Sample.tokyo; Sample.budget]
    (notes_list (updateNote RefJSON.stringify 9000
                   (Sample.page [Sample.tokyo; Sample.budget] (Some Sample.tokyo)
                      Sample.edit_form))).
Proof.
  apply (updateNote_correct RefJSON.stringify 9000
           (Sample.page [Sample.tokyo; Sample.budget] (Some Sample.tokyo) Sample.edit_form)
           Sample.tokyo).
  reflexivity.
Defined.

Lemma update_delete_missing_id_witness :
  notes_list (updateNote RefJSON.stringify 9000
                (Sample.page [Sample.budget] (Some Sample.tokyo) Sample.edit_form))
  = [Sample.budget]
  /\ notes_list (deleteNote RefJSON.stringify
                   (Sample.page [Sample.budget] (Some Sample.tokyo) Sample.edit_form))
     = [Sample.budget].
Proof.
  apply (update_delete_missing_id RefJSON.stringify 9000
           (Sample.page [Sample.budget] (Some Sample.tokyo) Sample.edit_form)).
  intros sel Hsel. injection Hsel as <-. vm_compute.
  intros [H|H]; [discriminate H | exact H].
Defined.

Lemma deleteNote_correct_witness :
  S (length (notes_list (deleteNote RefJSON.stringify
                           (Sample.page [Sample.tokyo; Sample.budget] (Some Sample.tokyo)
                              Sample.blank_form))))
  = 2%nat.
Proof.
  apply (deleteNote_correct RefJSON.stringify
           (Sample.page [Sample.tokyo; Sample.budget] (Some Sample.tokyo) Sample.blank_form)
           Sample.tokyo).
  - reflexivity.
  - repeat constructor; vm_compute; intuition discriminate.
  - vm_compute. left. reflexivity.
Defined.

(** ** Where the code departs from the specification *)

(** C7 as stated fails: with two notes under one id, deleting that id
    removes both, and the size drops by two. *)
Lemma deleteNote_removes_every_duplicate :
  let st := Sample.page [Sample.tokyo; Sample.tokyo_twin] (Some Sample.tokyo)
              Sample.blank_form in
  selectedNote st = Some Sample.tokyo
  /\ In (id Sample.tokyo) (Spec.ids (notes_list st))
  /\ length (notes_list st) = 2%nat
  /\ length (notes_list (deleteNote RefJSON.stringify st)) = 0%nat
  /\ Sample.tokyo_twin <> Sample.tokyo.
Proof.
  cbv zeta. repeat split; try reflexivity.
  - left. reflexivity.
  - discriminate.
Qed.

(** C8 as stated fails: when the random draw and the clock repeat, the new
    note gets the id of a note already in the collection. *)
Lemma createNote_id_collision :
  let st := Sample.page [Sample.tokyo] None Sample.edit_form in
  let st' := createNote RefJSON.stringify 1730577600000 "0.k3x9a1" 1730577600000 st in
  Spec.ids (notes_list st') = [id Sample.tokyo; id Sample.tokyo]
  /\ List.NoDup (Spec.ids (notes_list st))
  /\ ~ List.NoDup (Spec.ids (notes_list st')).
Proof.
  cbv zeta. split; [vm_compute; reflexivity|]. split.
  - repeat constructor. intros [].
  - intros H. inversion H as [|? ? Hnotin _]; subst. apply Hnotin. left. reflexivity.
Qed.

(** C9. The code does not do what the claim says: for a stored payload of
    the wrong shape (an array, an object without [email], a number)
    [loadUser] returns the parsed value as the identity instead of absent.
    [loadNotes] checks the shape of its payload and falls back to the empty
    collection, and the view-mode loader accepts the two literals only;
    [loadUser] has no such check, and the page then reads [email[0]] of
    what it returned. *)
Lemma loadUser_returns_wrong_shape :
  loadUser RefJSON.parse {[LS_USER_KEY := "[1,2]"]} = Normal (JArr [JNum 1; JNum 2])
  /\ loadUser RefJSON.parse {[LS_USER_KEY := RefJSON.text "{'name':'Bob'}"]}
     = Normal (JObj [("name", JStr "Bob")])
  /\ loadUser RefJSON.parse {[LS_USER_KEY := "42"]} = Normal (JNum 42).
Proof. vm_compute. repeat split; reflexivity. Qed.

(** * Further properties of the page *)

(** ** More on strings *)

Module TextFacts.
Import JsString.
Import JsStringFacts.

Lemma trimStart_fixed (t : string) :
  Spec.not_white_space (Spec.first_char t) -> trimStart t = t.
Proof.
  destruct t as [|c t]; [reflexivity|]. cbn. intros H. rewrite H. reflexivity.
Qed.

Lemma trimEnd_fixed (t : string) :
  Spec.not_white_space (Spec.last_char t) -> trimEnd t = t.
Proof.
  induction t as [|c t IH]; [reflexivity|].
  cbn [trimEnd]. destruct t as [|d t'].
  - cbn. intros H. rewrite H. reflexivity.
  - intros H. change (Spec.last_char (String c (String d t')))
      with (Spec.last_char (String d t')) in H.
    rewrite (IH H). cbn [is_empty]. rewrite andb_false_r. reflexivity.
Qed.

(** A string without white space at its ends is its own trim. *)
Lemma trim_fixed (t : string) :
  Spec.not_white_space (Spec.first_char t) ->
  Spec.not_white_space (Spec.last_char t) ->
  trim t = t.
Proof.
  intros Hf Hl. unfold trim. rewrite (trimStart_fixed t Hf). apply trimEnd_fixed, Hl.
Qed.

Lemma trim_idempotent (s : string) : trim (trim s) = trim s.
Proof.
  destruct (trim_spec s) as (l & r & _ & _ & _ & Hf & Hl). apply trim_fixed; assumption.
Qed.

Lemma trim_cons_white_space (c : ascii) (s : string) :
  is_white_space c = true -> trim (String c s) = trim s.
Proof. intros H. unfold trim. cbn [trimStart]. rewrite H. reflexivity. Qed.

(** White space alone trims to the empty string. *)
Lemma trim_blank (s : string) :
  Spec.all_white_space s = true -> trim s = EmptyString.
Proof.
  induction s as [|c s IH]; [reflexivity|].
  cbn [Spec.all_white_space]. intros H. apply andb_true_iff in H. destruct H as [Hc Hs].
  rewrite (trim_cons_white_space c s Hc). apply IH, Hs.
Qed.

Lemma split_comma_no_comma (a : string) :
  Spec.no_comma a = true -> split_comma a = [a].
Proof.
  induction a as [|c a IH]; [reflexivity|].
  cbn [Spec.no_comma split_comma]. intros H. apply andb_true_iff in H.
  destruct H as [Hc Ha]. apply negb_true_iff in Hc. rewrite Hc, (IH Ha). reflexivity.
Qed.

Lemma split_comma_append (a b : string) :
  Spec.no_comma a = true ->
  split_comma (a ++ String "," b) = a :: split_comma b.
Proof.
  induction a as [|c a IH]; [reflexivity|].
  cbn [Spec.no_comma]. intros H. apply andb_true_iff in H.
  destruct H as [Hc Ha]. apply negb_true_iff in Hc.
  rewrite append_cons. cbn [split_comma]. rewrite Hc, (IH Ha). reflexivity.
Qed.

Lemma map_trim_split_space (s : string) :
  map trim (split_comma (String " " s)) = map trim (split_comma s).
Proof.
  cbn [split_comma]. change (Ascii.eqb " " ",") with false. cbv iota.
  pose proof (split_comma_nonempty s) as Hne.
  destruct (split_comma s) as [|p rest]; [congruence|].
  cbn [map]. rewrite trim_cons_white_space by reflexivity. reflexivity.
Qed.

Lemma no_comma_trimStart (s : string) :
  Spec.no_comma s = true -> Spec.no_comma (trimStart s) = true.
Proof.
  induction s as [|c s IH]; [reflexivity|].
  intros H. cbn [trimStart]. destruct (is_white_space c); [|exact H].
  cbn [Spec.no_comma] in H. apply andb_true_iff in H. apply IH, H.
Qed.

Lemma no_comma_trimEnd (s : string) :
  Spec.no_comma s = true -> Spec.no_comma (trimEnd s) = true.
Proof.
  induction s as [|c s IH]; [reflexivity|].
  cbn [Spec.no_comma trimEnd]. intros H. apply andb_true_iff in H. destruct H as [Hc Hs].
  destruct (is_white_space c && is_empty (trimEnd s)); [reflexivity|].
  cbn [Spec.no_comma]. rewrite Hc, (IH Hs). reflexivity.
Qed.

Lemma no_comma_trim (s : string) :
  Spec.no_comma s = true -> Spec.no_comma (trim s) = true.
Proof. intros H. apply no_comma_trimEnd, no_comma_trimStart, H. Qed.

(** The tag line that [openEdit] writes is read back by the normalization
    as the tags it was made of. *)
Lemma normal_tags_join (l : list string) :
  Forall Written.tag_ok l -> Spec.normal_tags (join ", " l) = l.
Proof.
  unfold Spec.normal_tags. induction l as [|t l IH]; intros Hl; [reflexivity|].
  inversion Hl as [|? ? (Ht & Hne & Hc) Hl']; subst. specialize (IH Hl').
  destruct l as [|t' l'].
  - cbn [join]. rewrite (split_comma_no_comma t Hc). cbn [map List.filter].
    rewrite Ht, Hne. reflexivity.
  - change (join ", " (t :: t' :: l'))
      with (t ++ String "," (String " " (join ", " (t' :: l')))).
    rewrite (split_comma_append _ _ Hc). cbn [map List.filter].
    rewrite Ht, Hne, map_trim_split_space, IH. reflexivity.
Qed.

(** What the normalization writes is in written form. *)
Lemma normal_tags_ok (tagsRaw : string) : Forall Written.tag_ok (Spec.normal_tags tagsRaw).
Proof.
  apply List.Forall_forall. intros t Ht. unfold Spec.normal_tags in Ht.
  apply filter_In in Ht. destruct Ht as [Ht Hne]. apply negb_true_iff in Hne.
  apply in_map_iff in Ht. destruct Ht as (p & <- & Hp).
  destruct (split_comma_spec tagsRaw) as [_ Hall].
  rewrite forallb_forall in Hall.
  repeat split; [apply trim_idempotent | exact Hne | apply no_comma_trim, Hall, Hp].
Qed.

Lemma normal_title_ok (raw : string) :
  trim (Spec.normal_title raw) = Spec.normal_title raw
  /\ is_empty (Spec.normal_title raw) = false.
Proof.
  unfold Spec.normal_title. destruct (is_empty (trim raw)) eqn:E.
  - split; reflexivity.
  - split; [apply trim_idempotent | exact E].
Qed.
End TextFacts.

(** ** More on the query *)

Section QueryFacts.
Import JsString.

Lemma filter_all (A : Type) (f : A -> bool) (l : list A) :
  (forall x, In x l -> f x = true) -> List.filter f l = l.
Proof.
  induction l as [|x l IH]; intros H; [reflexivity|].
  cbn [List.filter]. rewrite (H x (or_introl eq_refl)). f_equal.
  apply IH. intros y Hy. apply H. right. exact Hy.
Qed.

(** Sorting a list that is already in descending order changes nothing. *)
Lemma sort_sorted (A : Type) (key : A -> Z) (l : list A) :
  StronglySorted (fun a b => key b <= key a) l ->
  JsArray.sort (fun a b => key b - key a) l = l.
Proof.
  induction l as [|x l IH]; intros Hs; [reflexivity|].
  inversion Hs as [|? ? Hs' Hx]; subst. cbn [JsArray.sort]. rewrite (IH Hs').
  destruct l as [|y l']; [reflexivity|]. cbn [JsArray.insert_sorted].
  inversion Hx as [|? ? Hy _]; subst.
  destruct (Z.leb_spec (key y - key x) 0); [reflexivity | lia].
Qed.

Lemma keep_blank (searchText exactTag : string) (n : Note) :
  Spec.all_white_space searchText = true ->
  Spec.all_white_space exactTag = true ->
  filteredNotes_keep (toLowerCase (trim searchText)) (toLowerCase (trim exactTag)) n = true.
Proof.
  intros Hq Ht. rewrite (TextFacts.trim_blank _ Hq), (TextFacts.trim_blank _ Ht).
  reflexivity.
Qed.

(** With nothing but white space in the search box and in the tag box,
    every note of the collection is shown, newest first. *)
Theorem blank_filters_show_all (searchText exactTag : string) (l : list Note) :
  Spec.all_white_space searchText = true ->
  Spec.all_white_space exactTag = true ->
  Permutation (filteredNotes searchText exactTag l) l
  /\ StronglySorted QuerySpec.newer_first (filteredNotes searchText exactTag l).
Proof.
  intros Hq Ht. rewrite filteredNotes_unfold. split.
  - rewrite JsArrayFacts.sort_perm.
    rewrite filter_all; [reflexivity|]. intros n _. apply keep_blank; assumption.
  - apply (JsArrayFacts.sort_desc updatedAt).
Qed.

(** After [clearFilters] the computed list holds every note of the
    collection, whatever the filters were. *)
Theorem clearFilters_shows_all (p : Page) :
  Permutation (filteredNotes_value (clearFilters p)) (notes_list (app p))
  /\ length (filteredNotes_value (clearFilters p)) = length (notes_list (app p)).
Proof.
  assert (H : Permutation (filteredNotes_value (clearFilters p)) (notes_list (app p))).
  { unfold filteredNotes_value, clearFilters. cbn [query tagFilter app].
    rewrite filteredNotes_unfold, JsArrayFacts.sort_perm.
    rewrite filter_all; [reflexivity|]. intros n _. reflexivity. }
  split; [exact H | apply Permutation_length, H].
Qed.

(** Filtering the filtered list again, with the same filters, gives the
    same list: what is shown matches the filters and is already in order. *)
Theorem filteredNotes_idempotent (searchText exactTag : string) (l : list Note) :
  filteredNotes searchText exactTag (filteredNotes searchText exactTag l)
  = filteredNotes searchText exactTag l.
Proof.
  rewrite (filteredNotes_unfold searchText exactTag (filteredNotes searchText exactTag l)).
  rewrite filter_all.
  - apply (sort_sorted Note updatedAt). rewrite filteredNotes_unfold.
    apply (JsArrayFacts.sort_desc updatedAt).
  - intros n Hn. rewrite filteredNotes_unfold in Hn.
    apply JsArrayFacts.sort_In in Hn. apply filter_In in Hn. apply Hn.
Qed.

(** The filter never shows more notes than the collection holds. *)
Lemma filteredNotes_length (searchText exactTag : string) (l : list Note) :
  (length (filteredNotes searchText exactTag l) <= length l)%nat.
Proof.
  rewrite filteredNotes_unfold.
  rewrite (Permutation_length (JsArrayFacts.sort_perm _ _)).
  induction l as [|n l IH]; [reflexivity|].
  cbn [List.filter]. destruct (filteredNotes_keep _ _ n); cbn [length]; lia.
Qed.

(** A click on a tag chip of a note shows that note, when the tag has no
    white space at its ends and the search box is blank. *)
Theorem selectTag_shows_note (p : Page) (n : Note) (t : string) :
  In n (notes_list (app p)) ->
  In t (tags n) ->
  trim t = t ->
  Spec.all_white_space (query p) = true ->
  In n (filteredNotes_value (selectTag t p)).
Proof.
  intros Hin Ht Htrim Hq. unfold filteredNotes_value, selectTag.
  cbn [query tagFilter app]. rewrite filteredNotes_unfold.
  apply JsArrayFacts.sort_In, filter_In. split; [exact Hin|].
  apply keep_matches. split.
  - left. rewrite (TextFacts.trim_blank _ Hq). reflexivity.
  - right. exists t. split; [exact Ht|]. rewrite Htrim.
    symmetry. apply SpecFacts.toLowerCase_spec.
Qed.
End QueryFacts.

(** ** More on the handlers *)

Section HandlerCompositions.
Variable JSON_stringify : json -> string.

Abbreviation create := (createNote JSON_stringify).
Abbreviation update := (updateNote JSON_stringify).
Abbreviation delete_ := (deleteNote JSON_stringify).

(** Opening a written note for edit and saving the form as it is changes
    that note in nothing but [updatedAt]; the notes with another id stay as
    they are. *)
Theorem edit_unchanged_touches (now : Z) (n : Note) (st : App) :
  Written.note_ok n ->
  Forall2 (fun old new => (old = n -> new = Written.touched now n)
                          /\ (id old <> id n -> new = old))
    (notes_list st) (notes_list (update now (openEdit n st))).
Proof.
  intros (Htitle & Hne & Hcontent & Htags).
  unfold updateNote, openEdit. cbn [selectedNote notes_list form form_title form_content form_tags].
  induction (notes_list st) as [|m l IH]; cbn [map]; constructor; [|exact IH].
  destruct (String.eqb_spec (id m) (id n)) as [Heq|Hneq].
  - split; [|congruence]. intros ->. unfold Written.touched.
    rewrite or_else_normal_title. unfold Spec.normal_title. rewrite Htitle, Hne, Hcontent.
    change (List.filter Boolean (map JsString.trim (JsString.split_comma
              (JsString.join ", " (tags n)))))
      with (Spec.normal_tags (JsString.join ", " (tags n))).
    rewrite (TextFacts.normal_tags_join _ Htags). reflexivity.
  - split; [|reflexivity]. intros ->. congruence.
Qed.

Lemma written_note (raw_title raw_content raw_tags i : string) (c u : Z) :
  Written.note_ok
    (mkNote i (or_else (JsString.trim raw_title) "Untitled") (JsString.trim raw_content)
       (List.filter Boolean (map JsString.trim (JsString.split_comma raw_tags))) c u).
Proof.
  unfold Written.note_ok. cbn [title content tags].
  rewrite or_else_normal_title. destruct (TextFacts.normal_title_ok raw_title) as [H1 H2].
  repeat split; [exact H1 | exact H2 | apply TextFacts.trim_idempotent |].
  apply TextFacts.normal_tags_ok.
Qed.

(** The written form is an invariant of the three handlers: when every
    note of the collection has a trimmed non-empty title, a trimmed content
    and trimmed, non-empty, comma-free tags, the same holds after a create,
    an update and a delete, whatever the form holds. *)
Theorem written_form_kept (now now_uid : Z) (random36 : string) (st : App) :
  Forall Written.note_ok (notes_list st) ->
  Forall Written.note_ok (notes_list (create now random36 now_uid st))
  /\ Forall Written.note_ok (notes_list (update now st))
  /\ Forall Written.note_ok (notes_list (delete_ st)).
Proof.
  intros Hall. split; [|split].
  - unfold createNote. cbn [notes_list]. constructor; [apply written_note | exact Hall].
  - unfold updateNote. destruct (selectedNote st) as [sel|]; [|exact Hall].
    cbn [notes_list]. induction Hall as [|m l Hm Hl IH]; cbn [map]; constructor; [|exact IH].
    destruct (String.eqb (id m) (id sel)); [apply written_note | exact Hm].
  - unfold deleteNote. destruct (selectedNote st) as [sel|]; [|exact Hall].
    cbn [notes_list]. apply List.Forall_forall. intros m Hm. apply filter_In in Hm.
    rewrite List.Forall_forall in Hall. apply Hall, Hm.
Qed.

(** [createdAt <= updatedAt] is an invariant of the three handlers as long
    as the clock read by an update is not before the creation of the notes
    it rewrites. *)
Theorem dated_kept (now now_uid : Z) (random36 : string) (st : App) :
  Forall Written.dated (notes_list st) ->
  (forall n, In n (notes_list st) -> createdAt n <= now) ->
  Forall Written.dated (notes_list (create now random36 now_uid st))
  /\ Forall Written.dated (notes_list (update now st))
  /\ Forall Written.dated (notes_list (delete_ st)).
Proof.
  intros Hall Hclock. split; [|split].
  - unfold createNote. cbn [notes_list]. constructor; [|exact Hall].
    unfold Written.dated. cbn. lia.
  - unfold updateNote. destruct (selectedNote st) as [sel|]; [|exact Hall].
    cbn [notes_list]. induction (notes_list st) as [|m l IH]; cbn [map]; [constructor|].
    inversion Hall as [|? ? Hm Hl]; subst. constructor.
    + destruct (String.eqb (id m) (id sel)); [|exact Hm].
      unfold Written.dated. cbn. apply Hclock. left. reflexivity.
    + apply IH; [exact Hl|]. intros n Hn. apply Hclock. right. exact Hn.
  - unfold deleteNote. destruct (selectedNote st) as [sel|]; [|exact Hall].
    cbn [notes_list]. apply List.Forall_forall. intros m Hm. apply filter_In in Hm.
    rewrite List.Forall_forall in Hall. apply Hall, Hm.
Qed.

Lemma ids_update (f : Note -> Note) (target : string) (l : list Note) :
  (forall n, id (f n) = id n) ->
  Spec.ids (map (fun n => if String.eqb (id n) target then f n else n) l) = Spec.ids l.
Proof.
  intros Hf. unfold Spec.ids. induction l as [|n l IH]; [reflexivity|].
  cbn [map]. rewrite IH. destruct (String.eqb (id n) target); [rewrite Hf|]; reflexivity.
Qed.

Lemma NoDup_ids_filter (f : Note -> bool) (l : list Note) :
  List.NoDup (Spec.ids l) -> List.NoDup (Spec.ids (List.filter f l)).
Proof.
  unfold Spec.ids. induction l as [|n l IH]; intros H; [constructor|].
  cbn [map] in H. inversion H as [|? ? Hnotin Hnd]; subst.
  cbn [List.filter]. destruct (f n); [|apply IH, Hnd].
  cbn [map]. constructor; [|apply IH, Hnd].
  intros Hin. apply Hnotin. apply in_map_iff in Hin. destruct Hin as (m & Hm & Hin).
  apply filter_In in Hin. destruct Hin as [Hin _].
  apply in_map_iff. exists m. split; assumption.
Qed.

(** An update keeps the ids of the collection, in their order; a delete
    keeps the ids pairwise distinct when they were. *)
Theorem ids_kept (now : Z) (st : App) :
  Spec.ids (notes_list (update now st)) = Spec.ids (notes_list st)
  /\ (List.NoDup (Spec.ids (notes_list st)) ->
      List.NoDup (Spec.ids (notes_list (delete_ st)))).
Proof.
  split.
  - unfold updateNote. destruct (selectedNote st) as [sel|]; [|reflexivity].
    cbn [notes_list]. apply (ids_update _ (id sel)). reflexivity.
  - unfold deleteNote. destruct (selectedNote st) as [sel|]; [|tauto].
    cbn [notes_list]. apply NoDup_ids_filter.
Qed.

(** The three handlers write the notes key and no other: what is stored
    under the session key and under the view-mode key is as before. *)
Theorem handlers_write_notes_key_only (now now_uid : Z) (random36 key : string) (st : App) :
  key <> LS_NOTES_KEY ->
  localStorage (create now random36 now_uid st) !! key = localStorage st !! key
  /\ localStorage (update now st) !! key = localStorage st !! key
  /\ localStorage (delete_ st) !! key = localStorage st !! key.
Proof.
  intros Hkey. unfold createNote, updateNote, deleteNote.
  destruct (selectedNote st); cbn [localStorage];
    unfold saveNotes, LocalStorage.setItem; rewrite ?lookup_insert_ne by congruence;
    repeat split.
Qed.

(** Deleting the note that a create has just added gives the collection
    back, when the generated id was the id of no note in it. *)
Theorem create_then_delete (now now_uid : Z) (random36 : string) (st : App) (n : Note) :
  ~ In (uid random36 now_uid) (Spec.ids (notes_list st)) ->
  hd_error (notes_list (create now random36 now_uid st)) = Some n ->
  notes_list (delete_ (confirmDelete n (create now random36 now_uid st)))
  = notes_list st.
Proof.
  intros Hfresh Hhd. unfold createNote in *. cbn [notes_list hd_error] in Hhd.
  injection Hhd as <-. unfold deleteNote, confirmDelete.
  cbn [selectedNote notes_list List.filter id]. rewrite String.eqb_refl. cbn [negb].
  apply filter_delete_absent. exact Hfresh.
Qed.

(** A second click on Save or on Delete does nothing: the first one has
    cleared the selection. *)
Theorem second_click_no_effect (now now' : Z) (st : App) :
  update now' (update now st) = update now st
  /\ delete_ (delete_ st) = delete_ st
  /\ update now (delete_ st) = delete_ st
  /\ delete_ (update now st) = update now st.
Proof.
  unfold updateNote, deleteNote.
  destruct (selectedNote st) as [sel|] eqn:Hsel; cbn [selectedNote];
    rewrite ?Hsel; repeat split.
Qed.
End HandlerCompositions.

(** ** Session, view mode and start-up *)

Section SessionFacts.
Variable JSON_parse : string -> completion json.
Variable JSON_stringify : json -> string.

Lemma loadNotes_same_payload (ls ls' : gmap string string) :
  ls' !! LS_NOTES_KEY = ls !! LS_NOTES_KEY ->
  loadNotes JSON_parse ls' = loadNotes JSON_parse ls.
Proof.
  intros H. unfold loadNotes, LocalStorage.getItem. rewrite H. reflexivity.
Qed.

(** After [logout] the page holds no identity, none is stored, and a reload
    finds none; the stored notes are as before. *)
Theorem logout_then_reload (p : Page) :
  user (logout JSON_stringify p) = JNull
  /\ localStorage (app (logout JSON_stringify p)) !! LS_USER_KEY = None
  /\ loadUser JSON_parse (localStorage (app (logout JSON_stringify p))) = Normal JNull
  /\ loadNotes JSON_parse (localStorage (app (logout JSON_stringify p)))
     = loadNotes JSON_parse (localStorage (app p)).
Proof.
  assert (Hgone : localStorage (app (logout JSON_stringify p)) !! LS_USER_KEY = None).
  { unfold logout, with_localStorage, saveUser, LocalStorage.removeItem.
    cbn [app localStorage]. apply lookup_delete_eq. }
  split; [reflexivity|]. split; [exact Hgone|]. split.
  - pose proof (loadUser_cases JSON_parse (localStorage (app (logout JSON_stringify p)))) as H.
    rewrite Hgone in H. exact H.
  - apply loadNotes_same_payload.
    unfold logout, with_localStorage, saveUser, LocalStorage.removeItem.
    cbn [app localStorage]. apply lookup_delete_ne. discriminate.
Qed.

(** [login] touches neither the collection in memory nor the stored
    notes, nor what the filters show, nor the stored view mode. *)
Theorem session_leaves_notes (email : string) (name : option string) (p : Page) :
  let p' := login JSON_stringify email name p in
  notes_list (app p') = notes_list (app p)
  /\ loadNotes JSON_parse (localStorage (app p')) = loadNotes JSON_parse (localStorage (app p))
  /\ filteredNotes_value p' = filteredNotes_value p
  /\ loadViewMode (localStorage (app p')) (viewMode p')
     = loadViewMode (localStorage (app p)) (viewMode p).
Proof.
  cbv zeta. split; [reflexivity|].
  assert (Hne : forall key, key <> LS_USER_KEY ->
            localStorage (app (login JSON_stringify email name p)) !! key
            = localStorage (app p) !! key).
  { intros key Hkey. unfold login, with_localStorage, saveUser, LocalStorage.setItem.
    cbn [app localStorage]. apply lookup_insert_ne. congruence. }
  split; [apply loadNotes_same_payload, Hne; discriminate|].
  split; [reflexivity|].
  unfold loadViewMode, LocalStorage.getItem. rewrite Hne by discriminate. reflexivity.
Qed.

(** [toggleView] switches between the two modes and stores the new one:
    a reload reads the mode the page shows, whatever mode the reload starts
    from; the stored notes are as before. *)
Theorem toggleView_then_reload (p : Page) (current : ViewMode) :
  viewMode (toggleView p) <> viewMode p
  /\ loadViewMode (localStorage (app (toggleView p))) current = viewMode (toggleView p)
  /\ loadNotes JSON_parse (localStorage (app (toggleView p)))
     = loadNotes JSON_parse (localStorage (app p))
  /\ loadUser JSON_parse (localStorage (app (toggleView p)))
     = loadUser JSON_parse (localStorage (app p)).
Proof.
  split; [destruct p as [? ? ? ? [] ?]; discriminate|].
  split.
  - unfold loadViewMode, toggleView, with_localStorage, LocalStorage.getItem,
      LocalStorage.setItem. cbn [app localStorage viewMode].
    rewrite lookup_insert_eq. destruct (viewMode p); reflexivity.
  - split.
    + apply loadNotes_same_payload.
      unfold toggleView, with_localStorage, LocalStorage.setItem.
      cbn [app localStorage]. apply lookup_insert_ne. discriminate.
    + unfold loadUser, LocalStorage.getItem, toggleView, with_localStorage,
        LocalStorage.setItem. cbn [app localStorage].
      rewrite lookup_insert_ne by discriminate. reflexivity.
Qed.

(** Two clicks on the view button give the first mode back, on the page
    and in the store. *)
Theorem toggleView_twice (p : Page) :
  viewMode (toggleView (toggleView p)) = viewMode p
  /\ localStorage (app (toggleView (toggleView p))) !! LS_VIEWMODE_KEY
     = Some (viewMode_text (viewMode p))
  /\ filteredNotes_value (toggleView (toggleView p)) = filteredNotes_value p.
Proof.
  unfold toggleView, with_localStorage, LocalStorage.setItem, filteredNotes_value.
  cbn [app localStorage viewMode query tagFilter notes_list].
  rewrite lookup_insert_eq. destruct (viewMode p); repeat split.
Qed.

(** The view mode that start-up reads is the current one unless the store
    holds exactly one of the two literals: a missing key and any other text
    change nothing. *)
Theorem loadViewMode_default (ls : gmap string string) (current : ViewMode) :
  (ls !! LS_VIEWMODE_KEY = None -> loadViewMode ls current = current)
  /\ (forall raw, ls !! LS_VIEWMODE_KEY = Some raw ->
        raw <> "grid" -> raw <> "list" -> loadViewMode ls current = current)
  /\ (forall m, ls !! LS_VIEWMODE_KEY = Some (viewMode_text m) ->
        loadViewMode ls current = m).
Proof.
  unfold loadViewMode, LocalStorage.getItem. split; [intros ->; reflexivity|]. split.
  - intros raw -> Hg Hl.
    destruct (String.eqb_spec raw "grid"); [congruence|].
    destruct (String.eqb_spec raw "list"); [congruence|]. reflexivity.
  - intros m ->. destruct m; reflexivity.
Qed.

(** Where there is a [localStorage], the loaders with the explicit
    reference are the loaders. *)
Lemma loaders_in_store (ls : gmap string string) :
  loadUser_in JSON_parse (Some ls) = loadUser JSON_parse ls
  /\ loadNotes_in JSON_parse (Some ls) = loadNotes JSON_parse ls.
Proof. split; reflexivity. Qed.

(** Start-up completes normally wherever there is a [localStorage],
    whatever it holds and whatever [JSON.parse] does with it: the task has
    no handler of its own, but each loader has; on an empty store it yields
    no identity, no notes and the current view mode. Where there is no
    [localStorage], the two loaders still return their defaults, and the
    task then throws at its own unguarded [localStorage.getItem]. *)
Theorem loadPersisted_outcome (current : ViewMode) :
  (forall ls, exists u l,
     loadPersisted JSON_parse (Some ls) current
     = Normal (u, l, loadViewMode ls current)
     /\ loadUser JSON_parse ls = Normal u
     /\ loadNotes JSON_parse ls = Normal l)
  /\ loadPersisted JSON_parse (Some ∅) current = Normal (JNull, [], current)
  /\ loadUser_in JSON_parse None = Normal JNull
  /\ loadNotes_in JSON_parse None = Normal []
  /\ loadPersisted JSON_parse None current = Throw ReferenceError.
Proof.
  split; [|repeat split].
  intros ls. unfold loadPersisted.
  destruct (loaders_in_store ls) as [-> ->].
  pose proof (loadUser_cases JSON_parse ls) as Hu.
  pose proof (loadNotes_cases JSON_parse ls) as Hn.
  assert (Hu' : exists u, loadUser JSON_parse ls = Normal u).
  { destruct (ls !! LS_USER_KEY) as [raw|]; [|eauto].
    destruct (JsString.is_empty raw); [eauto|]. destruct (JSON_parse raw); eauto. }
  assert (Hn' : exists l, loadNotes JSON_parse ls = Normal l).
  { destruct (ls !! LS_NOTES_KEY) as [raw|]; [|eauto].
    destruct (JsString.is_empty raw); [eauto|].
    destruct (JSON_parse raw) as [[]|]; eauto. }
  destruct Hu' as [u Hu']. destruct Hn' as [l Hn'].
  exists u, l. rewrite Hu', Hn'. repeat split.
Qed.
End SessionFacts.

Section SessionReference.
(** With the reference codec: after [login] a reload finds the identity
    that the page holds, the object with the given email and name. *)
Theorem login_then_reload (email : string) (name : option string) (p : Page) :
  loadUser RefJSON.parse (localStorage (app (login RefJSON.stringify email name p)))
  = Normal (user (login RefJSON.stringify email name p))
  /\ user (login RefJSON.stringify email name p) = json_of_user (mkUser email name).
Proof.
  split; [|reflexivity].
  unfold login, with_localStorage. cbn [app localStorage user].
  apply (loadUser_saveUser_reference (mkUser email name)).
Qed.

(** With the reference codec: a restart after a create (and, when a note
    is selected, after an update or a delete) finds the collection that the
    page held, and the identity and the view mode that were stored
    before. *)
Theorem restart_after_handler (now now_uid : Z) (random36 : string) (st : App)
    (current : ViewMode) (u : json) :
  loadUser RefJSON.parse (localStorage st) = Normal u ->
  let restart st' :=
    loadPersisted RefJSON.parse (Some (localStorage st')) current
    = Normal (u, map json_of_note (notes_list st'),
              loadViewMode (localStorage st) current) in
  restart (createNote RefJSON.stringify now random36 now_uid st)
  /\ (selectedNote st <> None ->
      restart (updateNote RefJSON.stringify now st)
      /\ restart (deleteNote RefJSON.stringify st)).
Proof.
  intros Hu. cbv zeta.
  assert (Hgen : forall l,
    loadPersisted RefJSON.parse
      (Some (saveNotes RefJSON.stringify l (localStorage st))) current
    = Normal (u, map json_of_note l, loadViewMode (localStorage st) current)).
  { intros l. unfold loadPersisted.
    change (loadUser_in RefJSON.parse (Some ?x)) with (loadUser RefJSON.parse x).
    change (loadNotes_in RefJSON.parse (Some ?x)) with (loadNotes RefJSON.parse x).
    rewrite load_save_reference.
    replace (loadUser RefJSON.parse (saveNotes RefJSON.stringify l (localStorage st)))
      with (loadUser RefJSON.parse (localStorage st)).
    - rewrite Hu. cbn [bind the_localStorage]. unfold loadViewMode, LocalStorage.getItem, saveNotes,
        LocalStorage.setItem. rewrite lookup_insert_ne by discriminate. reflexivity.
    - unfold loadUser, LocalStorage.getItem, saveNotes, LocalStorage.setItem.
      rewrite lookup_insert_ne by discriminate. reflexivity. }
  split.
  - unfold createNote. cbn [localStorage notes_list]. apply Hgen.
  - intros Hsel. unfold updateNote, deleteNote.
    destruct (selectedNote st); [|congruence]. cbn [localStorage notes_list].
    split; apply Hgen.
Qed.
End SessionReference.

(** ** The handlers and the view *)

Section ViewFacts.
Variable JSON_stringify : json -> string.

Lemma filteredNotes_In (searchText exactTag : string) (l : list Note) (n : Note) :
  In n (filteredNotes searchText exactTag l)
  <-> In n l
      /\ QuerySpec.matches (JsString.toLowerCase (JsString.trim searchText))
           (JsString.toLowerCase (JsString.trim exactTag)) n.
Proof.
  rewrite filteredNotes_unfold, JsArrayFacts.sort_In, filter_In, keep_matches.
  reflexivity.
Qed.

(** The two filters narrow each other: a note is shown under a search text
    and a tag filter together exactly when it is shown under each of them
    alone. *)
Theorem filters_conjunction (searchText exactTag : string) (l : list Note) (n : Note) :
  In n (filteredNotes searchText exactTag l)
  <-> In n (filteredNotes searchText EmptyString l)
      /\ In n (filteredNotes EmptyString exactTag l).
Proof.
  rewrite !filteredNotes_In. unfold QuerySpec.matches.
  change (JsString.toLowerCase (JsString.trim EmptyString)) with EmptyString.
  assert (Htext : QuerySpec.text_predicate EmptyString n) by (left; reflexivity).
  assert (Htag : QuerySpec.tag_predicate EmptyString n) by (left; reflexivity).
  tauto.
Qed.

(** The New Note dialog starts blank: a create right after [openCreate]
    adds the note "Untitled" with no content and no tags, whatever an
    earlier edit left in the form. *)
Theorem openCreate_then_create (now now_uid : Z) (random36 : string) (st : App) :
  notes_list (createNote JSON_stringify now random36 now_uid (openCreate st))
  = mkNote (uid random36 now_uid) "Untitled" EmptyString [] now now :: notes_list st.
Proof. reflexivity. Qed.

(** Under blank filters a note just created is shown first, followed by
    the notes of the collection, when the clock is not behind the
    [updatedAt] of any of them. *)
Theorem created_note_shown_first (now now_uid : Z) (random36 : string) (st : App) :
  (forall n, In n (notes_list st) -> updatedAt n <= now) ->
  exists newNote rest,
    notes_list (createNote JSON_stringify now random36 now_uid st)
    = newNote :: notes_list st
    /\ filteredNotes EmptyString EmptyString
         (notes_list (createNote JSON_stringify now random36 now_uid st))
       = newNote :: rest
    /\ Permutation rest (notes_list st).
Proof.
  intros Hclock. unfold createNote. cbn [notes_list].
  eexists. exists (JsArray.sort (fun a b => updatedAt b - updatedAt a) (notes_list st)).
  split; [reflexivity|]. split; [|apply JsArrayFacts.sort_perm].
  rewrite filteredNotes_unfold.
  rewrite filter_all by (intros; reflexivity).
  cbn [JsArray.sort].
  pose proof (JsArrayFacts.sort_In (fun a b => updatedAt b - updatedAt a)
                (notes_list st)) as Hin.
  destruct (JsArray.sort (fun a b => updatedAt b - updatedAt a) (notes_list st))
    as [|y l']; [reflexivity|].
  cbn [JsArray.insert_sorted updatedAt].
  assert (Hy : updatedAt y <= now) by (apply Hclock, Hin; left; reflexivity).
  destruct (Z.leb_spec (updatedAt y - now) 0); [reflexivity | lia].
Qed.

(** A deleted note is shown under no filter: after [confirmDelete] and
    [deleteNote] no note with its id is in the computed list. *)
Theorem deleted_note_not_shown (searchText exactTag : string) (n m : Note) (st : App) :
  In m (filteredNotes searchText exactTag
          (notes_list (deleteNote JSON_stringify (confirmDelete n st)))) ->
  id m <> id n /\ In m (notes_list st).
Proof.
  intros H. apply filteredNotes_In in H. destruct H as [H _].
  unfold deleteNote, confirmDelete in H. cbn [selectedNote notes_list] in H.
  apply filter_In in H. destruct H as [Hin Hid]. apply negb_true_iff in Hid.
  split; [|exact Hin]. intros Heq. rewrite Heq, String.eqb_refl in Hid. discriminate.
Qed.
End ViewFacts.

(** ** The further properties on sample data *)

Lemma blank_filters_show_all_witness :
  Permutation
    (filteredNotes (String " " (String "009" EmptyString)) " " [Sample.tokyo; Sample.budget])
    [Sample.tokyo; Sample.budget]
  /\ StronglySorted QuerySpec.newer_first
       (filteredNotes (String " " (String "009" EmptyString)) " "
          [Sample.tokyo; Sample.budget]).
Proof.
  apply (blank_filters_show_all (String " " (String "009" EmptyString)) " "
           [Sample.tokyo; Sample.budget]); reflexivity.
Defined.

Lemma selectTag_shows_note_witness :
  In Sample.tokyo (filteredNotes_value (selectTag "japan" SamplePage.home)).
Proof.
  apply (selectTag_shows_note SamplePage.home Sample.tokyo "japan").
  - left. reflexivity.
  - right. left. reflexivity.
  - reflexivity.
  - reflexivity.
Defined.

(** The condition on the tag is needed: a tag with a leading space does not
    select its own note, since the filter is trimmed and the tag is not. *)
Example selectTag_spaced_tag :
  filteredNotes_value
    (selectTag " a"
       (mkPage (Sample.page [SamplePage.spaced] None Sample.blank_form)
          JNull EmptyString EmptyString ViewGrid false))
  = [].
Proof. vm_compute. reflexivity. Qed.

Lemma edit_unchanged_touches_witness :
  Forall2 (fun old new => (old = Sample.tokyo -> new = Written.touched 9000 Sample.tokyo)
                          /\ (id old <> id Sample.tokyo -> new = old))
    [Sample.tokyo; Sample.budget]
    (notes_list (updateNote RefJSON.stringify 9000
                   (openEdit Sample.tokyo
                      (Sample.page [Sample.tokyo; Sample.budget] None Sample.edit_form)))).
Proof.
  apply (edit_unchanged_touches RefJSON.stringify 9000 Sample.tokyo
           (Sample.page [Sample.tokyo; Sample.budget] None Sample.edit_form)).
  repeat constructor; try reflexivity; vm_compute; discriminate.
Defined.

Example edit_unchanged_example :
  notes_list (updateNote RefJSON.stringify 9000
                (openEdit Sample.tokyo
                   (Sample.page [Sample.tokyo; Sample.budget] None Sample.edit_form)))
  = [Written.touched 9000 Sample.tokyo; Sample.budget].
Proof. vm_compute. reflexivity. Qed.

Lemma written_form_kept_witness :
  Forall Written.note_ok
    (notes_list (createNote RefJSON.stringify 7000 "0.4fzyo82mvyr" 7001
                   (Sample.page [Sample.tokyo; Sample.budget] None Sample.edit_form))).
Proof.
  apply (written_form_kept RefJSON.stringify 7000 7001 "0.4fzyo82mvyr"
           (Sample.page [Sample.tokyo; Sample.budget] None Sample.edit_form)).
  repeat constructor; try reflexivity; vm_compute; discriminate.
Defined.

Lemma dated_kept_witness :
  Forall Written.dated
    (notes_list (updateNote RefJSON.stringify 9000
                   (Sample.page [Sample.tokyo; Sample.budget] (Some Sample.tokyo)
                      Sample.edit_form))).
Proof.
  apply (dated_kept RefJSON.stringify 9000 7001 "0.4fzyo82mvyr"
           (Sample.page [Sample.tokyo; Sample.budget] (Some Sample.tokyo) Sample.edit_form)).
  - repeat constructor; vm_compute; discriminate.
  - intros n [<-|[<-|[]]]; vm_compute; discriminate.
Defined.

(** The condition on the clock is needed: an update stamped before the
    creation leaves [updatedAt] before [createdAt]. *)
Example update_with_clock_set_back :
  map (fun n => (createdAt n, updatedAt n))
    (notes_list (updateNote RefJSON.stringify 500
                   (Sample.page [Sample.tokyo] (Some Sample.tokyo) Sample.edit_form)))
  = [(1000, 500)].
Proof. vm_compute. reflexivity. Qed.

Lemma handlers_write_notes_key_only_witness :
  localStorage
    (createNote RefJSON.stringify 7000 "0.4fzyo82mvyr" 7001
       (with_localStorage SamplePage.store
          (Sample.page [Sample.budget] None Sample.edit_form)))
  !! LS_USER_KEY
  = SamplePage.store !! LS_USER_KEY.
Proof.
  apply (handlers_write_notes_key_only RefJSON.stringify 7000 7001 "0.4fzyo82mvyr"
           LS_USER_KEY
           (with_localStorage SamplePage.store
              (Sample.page [Sample.budget] None Sample.edit_form))).
  discriminate.
Defined.

Lemma create_then_delete_witness :
  notes_list
    (deleteNote RefJSON.stringify
       (confirmDelete
          (mkNote "4fzyo82mvyr5eh" "Trip to Osaka" "Shinkansen" ["travel"; "Japan"; "rail"]
             7000 7000)
          (createNote RefJSON.stringify 7000 "0.4fzyo82mvyr" 7001
             (Sample.page [Sample.budget] None Sample.edit_form))))
  = [Sample.budget].
Proof.
  apply (create_then_delete RefJSON.stringify 7000 7001 "0.4fzyo82mvyr"
           (Sample.page [Sample.budget] None Sample.edit_form)).
  - vm_compute. intros [H|H]; [discriminate H | exact H].
  - vm_compute. reflexivity.
Defined.

Lemma restart_after_handler_witness :
  loadPersisted RefJSON.parse
    (Some
       (localStorage
          (createNote RefJSON.stringify 7000 "0.4fzyo82mvyr" 7001
             (with_localStorage SamplePage.store
                (Sample.page [Sample.budget] None Sample.edit_form)))))
    ViewGrid
  = Normal (JObj [("email", JStr "ann@example.org"); ("name", JStr "Ann")],
            map json_of_note
              (notes_list
                 (createNote RefJSON.stringify 7000 "0.4fzyo82mvyr" 7001
                    (with_localStorage SamplePage.store
                       (Sample.page [Sample.budget] None Sample.edit_form)))),
            ViewList).
Proof.
  apply (restart_after_handler 7000 7001 "0.4fzyo82mvyr"
           (with_localStorage SamplePage.store
              (Sample.page [Sample.budget] None Sample.edit_form))
           ViewGrid
           (JObj [("email", JStr "ann@example.org"); ("name", JStr "Ann")])).
  vm_compute. reflexivity.
Defined.

Lemma created_note_shown_first_witness :
  exists newNote rest,
    notes_list (createNote RefJSON.stringify 7000 "0.4fzyo82mvyr" 7001
                  (Sample.page [Sample.tokyo; Sample.budget] None Sample.edit_form))
    = newNote :: [Sample.tokyo; Sample.budget]
    /\ filteredNotes EmptyString EmptyString
         (notes_list (createNote RefJSON.stringify 7000 "0.4fzyo82mvyr" 7001
                        (Sample.page [Sample.tokyo; Sample.budget] None Sample.edit_form)))
       = newNote :: rest
    /\ Permutation rest [Sample.tokyo; Sample.budget].
Proof.
  apply (created_note_shown_first RefJSON.stringify 7000 7001 "0.4fzyo82mvyr"
           (Sample.page [Sample.tokyo; Sample.budget] None Sample.edit_form)).
  intros n [<-|[<-|[]]]; vm_compute; discriminate.
Defined.

Lemma deleted_note_not_shown_witness :
  id Sample.budget <> id Sample.tokyo
  /\ In Sample.budget [Sample.tokyo; Sample.budget].
Proof.
  apply (deleted_note_not_shown RefJSON.stringify EmptyString "work"
           Sample.tokyo Sample.budget
           (Sample.page [Sample.tokyo; Sample.budget] None Sample.blank_form)).
  vm_compute. left. reflexivity.
Defined.

Lemma filteredNotes_correct_witness :
  (forall n, In n (filteredNotes "  TOKYO " " Travel" [Sample.tokyo; Sample.budget])
             <-> In n [Sample.tokyo; Sample.budget]
                 /\ QuerySpec.matches "tokyo" "travel" n)
  /\ (forall n, QuerySpec.matches "tokyo" "travel" n ->
        count_occ Note_eq_dec
          (filteredNotes "  TOKYO " " Travel" [Sample.tokyo; Sample.budget]) n
        = count_occ Note_eq_dec [Sample.tokyo; Sample.budget] n)
  /\ StronglySorted QuerySpec.newer_first
       (filteredNotes "  TOKYO " " Travel" [Sample.tokyo; Sample.budget]).
Proof.
  apply (filteredNotes_correct "  TOKYO " " Travel" [Sample.tokyo; Sample.budget]
           "tokyo" "travel").
  - exists "TOKYO". split; [|reflexivity].
    exists "  ", " ". repeat split; reflexivity.
  - exists "Travel". split; [|reflexivity].
    exists " ", EmptyString. repeat split; reflexivity.
Defined.
